(** * Padded-batch perplexity (C3_W2_lecture_nb_02_perplexity.ipynb)

    A shallow embedding of the perplexity computation of the lecture
    notebook:

<<
    reshaped_targets = tl.one_hot(targets, predictions.shape[-1])
    total_log_ppx    = np.sum(predictions * reshaped_targets, axis= -1)
    non_pad          = 1.0 - np.equal(targets, 0)
    real_log_ppx     = total_log_ppx * non_pad
    log_ppx          = np.sum(real_log_ppx) / np.sum(non_pad)
    log_ppx          = -log_ppx
    ... np.exp(log_ppx)
>>

    Arrays are nested lists (row-major), target ids are integers ([Z]).
    The notebook runs the same code on two array libraries, so the code
    is written once over an interface of scalar operations ([Numeric],
    [Exponential]) and instantiated twice:

    - [xreal]: IEEE special values (NaN, +oo, -oo) over exact real
      arithmetic, with [exp].  Rounding and range overflow are left
      out, and the two zeros are one; the special-value rules
      (0/0 = NaN, oo * 0 = NaN, NaN absorbing) are the IEEE ones.  What
      is proved on this instance is proved of exact arithmetic, and
      says so where the value of a sum or of a quotient is concerned.
    - [binary32]: the bit-exact IEEE single-precision operations of the
      standard library ([SpecFloat], precision 24, emax 128), the dtype
      the notebook reports ([float32]).  It has no exponential, so it
      runs the cells up to [log_ppx].  The library does not fix the
      order in which [np.sum] adds its terms; the model adds them from
      left to right.  The file proves on this instance, bit for bit,
      what depends neither on rounding nor on that order, and shows by
      computation where exact arithmetic and binary32 part: the
      overflow of the range, the rounding of a mean. *)

From Stdlib Require Import List ZArith Lia Bool Permutation.
From Stdlib Require Import Reals Lra.
From Stdlib Require Import Floats.SpecFloat.
Import ListNotations.

Set Implicit Arguments.

(** ** Outcomes: a result or one of the errors of the specification *)

Inductive error : Type :=
| ShapeMismatch
| IndexOutOfRange
| DivisionByZero.

Inductive outcome (A : Type) : Type :=
| Ok (a : A)
| Raise (e : error).

Arguments Ok {A} a.
Arguments Raise {A} e.

Definition bind {A B : Type} (c : outcome A) (k : A -> outcome B) : outcome B :=
  match c with
  | Ok a => k a
  | Raise e => Raise e
  end.

Notation "x <- c ;; k" := (bind c (fun x => k))
  (at level 61, c at next level, right associativity).

(** ** The scalar interface of the array library *)

Class Numeric (T : Type) : Type := {
  zero : T;
  one : T;
  add : T -> T -> T;
  sub : T -> T -> T;
  mul : T -> T -> T;
  div : T -> T -> T;
  neg : T -> T
}.

Class Exponential (T : Type) : Type := {
  np_exp : T -> T
}.

(** [0 <= x < n]: the id [x] indexes a vocabulary of size [n]. *)
Definition in_range (x : Z) (n : nat) : bool :=
  (0 <=? x)%Z && (x <? Z.of_nat n)%Z.

(** ** Array primitives *)

Section Arrays.
Context {T : Type} `{Numeric T}.

(** Casting a boolean array to the float dtype: [True] is [1.0]. *)
Definition of_bool (b : bool) : T := if b then one else zero.

(** [np.sum] of a flat array: a reduction that starts from [0].  The
    library does not fix the order in which the terms are added; here
    they are added from left to right.  On exact reals the order is
    immaterial; what is proved bit for bit of a binary32 sum is proved
    of this order. *)
Definition np_sum (l : list T) : T := fold_left add l zero.

(** [np.sum] without [axis] of a two-dimensional array, in row-major
    order. *)
Definition np_sum2 (a : list (list T)) : T := np_sum (concat a).

(** Elementwise application along one axis when both sizes agree. *)
Fixpoint zipM {A B C : Type} (f : A -> B -> outcome C)
         (xs : list A) (ys : list B) : outcome (list C) :=
  match xs, ys with
  | [], [] => Ok []
  | x :: xs', y :: ys' =>
      c <- f x y ;; cs <- zipM f xs' ys' ;; Ok (c :: cs)
  | _, _ => Raise ShapeMismatch
  end.

Fixpoint mapM {A C : Type} (f : A -> outcome C) (xs : list A)
  : outcome (list C) :=
  match xs with
  | [] => Ok []
  | x :: xs' => c <- f x ;; cs <- mapM f xs' ;; Ok (c :: cs)
  end.

(** NumPy broadcasting along one axis: an axis of size 1 is stretched
    to the size of the other operand, equal sizes are zipped, anything
    else is a shape error. *)
Definition broadcast {A B C : Type} (f : A -> B -> outcome C)
           (xs : list A) (ys : list B) : outcome (list C) :=
  match xs, ys with
  | [_], [_] => zipM f xs ys
  | [x], _ => mapM (f x) ys
  | _, [y] => mapM (fun x => f x y) xs
  | _, _ => zipM f xs ys
  end.

Definition mul0 (a b : T) : outcome T := Ok (mul a b).

(** [a * b] on arrays of one, two and three dimensions. *)
Definition mul1 : list T -> list T -> outcome (list T) := broadcast mul0.
Definition mul2 : list (list T) -> list (list T) -> outcome (list (list T)) :=
  broadcast mul1.
Definition mul3 : list (list (list T)) -> list (list (list T))
                  -> outcome (list (list (list T))) :=
  broadcast mul2.

(** [predictions.shape[-1]]. *)
Definition last_dim (predictions : list (list (list T))) : nat :=
  match predictions with
  | (v :: _) :: _ => length v
  | _ => 0%nat
  end.

(** [trax.layers.one_hot(x, n)] on one id:
    [(x[..., newaxis] == arange(n)).astype(float32)].  An id that is not
    in [arange(n)] compares unequal everywhere. *)
Definition one_hot (x : Z) (n : nat) : list T :=
  map (fun i => of_bool (Z.eqb x (Z.of_nat i))) (seq 0 n).

(** ** The notebook's cells *)

Definition pad_id : Z := 0.

Definition reshaped_targets (targets : list (list Z)) (n : nat)
  : list (list (list T)) :=
  map (map (fun x => one_hot x n)) targets.

Definition total_log_ppx (predictions : list (list (list T)))
           (targets : list (list Z)) : outcome (list (list T)) :=
  p <- mul3 predictions (reshaped_targets targets (last_dim predictions)) ;;
  Ok (map (map np_sum) p).

Definition non_pad (targets : list (list Z)) : list (list T) :=
  map (map (fun x => sub one (of_bool (Z.eqb x pad_id)))) targets.

Definition real_log_ppx (predictions : list (list (list T)))
           (targets : list (list Z)) : outcome (list (list T)) :=
  t <- total_log_ppx predictions targets ;;
  mul2 t (non_pad targets).

Definition log_ppx (predictions : list (list (list T)))
           (targets : list (list Z)) : outcome T :=
  r <- real_log_ppx predictions targets ;;
  Ok (neg (div (np_sum2 r) (np_sum2 (non_pad targets)))).

(** The pair the last cell prints: [(log_ppx, np.exp(log_ppx))]. *)
Definition compute `{Exponential T} (predictions : list (list (list T)))
           (targets : list (list Z)) : outcome (T * T) :=
  l <- log_ppx predictions targets ;;
  Ok (l, np_exp l).

(** ** Shapes, positions and the value of each cell at one position *)

Fixpoint zip_with {A B C : Type} (f : A -> B -> C)
         (xs : list A) (ys : list B) : list C :=
  match xs, ys with
  | x :: xs', y :: ys' => f x y :: zip_with f xs' ys'
  | _, _ => []
  end.

(** [predictions] has shape (B, T, V). *)
Definition shape3 (B T' V : nat) (predictions : list (list (list T))) : Prop :=
  length predictions = B /\
  Forall (fun row => length row = T' /\ Forall (fun v => length v = V) row)
         predictions.

(** [targets] has shape (B, T). *)
Definition shape2 (B T' : nat) (targets : list (list Z)) : Prop :=
  length targets = B /\ Forall (fun row => length row = T') targets.

(** Position by position, a vocabulary vector of length [n] faces a
    target id. *)
Definition aligned (n : nat) (predictions : list (list (list T)))
           (targets : list (list Z)) : Prop :=
  Forall2 (Forall2 (fun (v : list T) (_ : Z) => length v = n))
          predictions targets.

(** What [total_log_ppx] holds at one position: the sum over the
    vocabulary of the products with the one-hot row. *)
Definition token_log_ppx (v : list T) (x : Z) : T :=
  np_sum (zip_with mul v (one_hot x (length v))).

(** What [non_pad] holds at one position. *)
Definition mask (x : Z) : T := sub one (of_bool (Z.eqb x pad_id)).

(** What [real_log_ppx] holds at one position. *)
Definition masked (v : list T) (x : Z) : T :=
  mul (token_log_ppx v x) (mask x).

(** The positions (b, t) of a batch in row-major order, each with its
    vocabulary vector [predictions[b,t,:]] and its target id. *)
Definition positions (predictions : list (list (list T)))
           (targets : list (list Z)) : list (list T * Z) :=
  concat (zip_with (zip_with pair) predictions targets).

(** Reading one position by its indices. *)
Definition vec_at (predictions : list (list (list T))) (b t : nat) : list T :=
  nth t (nth b predictions []) [].

Definition target_at (targets : list (list Z)) (b t : nat) : Z :=
  nth t (nth b targets []) 0%Z.

(** Reordering the rows of an array by a list of row indices. *)
Definition permute_rows {A : Type} (sigma : list nat) (a : list (list A))
  : list (list A) :=
  map (fun i => nth i a []) sigma.

(** ** The direct-gather formulation of the specification

    Step 1 of the specification's algorithm,
    [selected[b,t] = predictions[b,t, targets[b,t]]], with its error for
    an id outside [0, V); the remaining steps are the notebook's. *)
Definition gather (v : list T) (x : Z) : outcome T :=
  if in_range x (length v) then Ok (nth (Z.to_nat x) v zero)
  else Raise IndexOutOfRange.

Definition gather_total_log_ppx (predictions : list (list (list T)))
           (targets : list (list Z)) : outcome (list (list T)) :=
  zipM (zipM gather) predictions targets.

Definition gather_compute `{Exponential T}
           (predictions : list (list (list T)))
           (targets : list (list Z)) : outcome (T * T) :=
  t <- gather_total_log_ppx predictions targets ;;
  r <- mul2 t (non_pad targets) ;;
  let l := neg (div (np_sum2 r) (np_sum2 (non_pad targets))) in
  Ok (l, np_exp l).

(** [predictions[b,t, targets[b,t]]]: the log-probability of the true
    class at position (b, t). *)
Definition true_log_prob (predictions : list (list (list T)))
           (targets : list (list Z)) (b t : nat) : T :=
  nth (Z.to_nat (target_at targets b t)) (vec_at predictions b t) zero.

(** The number of positions whose target is not the pad id. *)
Definition non_pad_count (targets : list (list Z)) : nat :=
  length (filter (fun x => negb (Z.eqb x pad_id)) (concat targets)).

End Arrays.

(** ** First instance: IEEE special values over exact reals *)

Inductive xreal : Type :=
| Fin (r : R)
| PInf
| NInf
| NaN.

Module XReal.

Local Open Scope R_scope.

Definition inf (positive : bool) : xreal := if positive then PInf else NInf.

(** An infinity of the given sign times the real [r]: [oo * 0] is NaN. *)
Definition scale (positive : bool) (r : R) : xreal :=
  match total_order_T 0 r with
  | inleft (left _) => inf positive
  | inleft (right _) => NaN
  | inright _ => inf (negb positive)
  end.

Definition xadd (a b : xreal) : xreal :=
  match a, b with
  | NaN, _ | _, NaN => NaN
  | PInf, NInf | NInf, PInf => NaN
  | PInf, _ | _, PInf => PInf
  | NInf, _ | _, NInf => NInf
  | Fin x, Fin y => Fin (x + y)
  end.

Definition xneg (a : xreal) : xreal :=
  match a with
  | Fin x => Fin (- x)
  | PInf => NInf
  | NInf => PInf
  | NaN => NaN
  end.

Definition xsub (a b : xreal) : xreal := xadd a (xneg b).

Definition xmul (a b : xreal) : xreal :=
  match a, b with
  | NaN, _ | _, NaN => NaN
  | Fin x, Fin y => Fin (x * y)
  | Fin x, PInf | PInf, Fin x => scale true x
  | Fin x, NInf | NInf, Fin x => scale false x
  | PInf, PInf | NInf, NInf => PInf
  | PInf, NInf | NInf, PInf => NInf
  end.

(** Division; a zero divisor is the positive zero (the only zero a sum
    of mask values can be): [0 / 0] is NaN, [x / 0] an infinity of the
    sign of [x]. *)
Definition xdiv (a b : xreal) : xreal :=
  match a, b with
  | NaN, _ | _, NaN => NaN
  | Fin x, Fin y =>
      if Req_EM_T y 0 then scale true x else Fin (x / y)
  | Fin _, PInf | Fin _, NInf => Fin 0
  | PInf, Fin y =>
      match total_order_T 0 y with inright _ => NInf | _ => PInf end
  | NInf, Fin y =>
      match total_order_T 0 y with inright _ => PInf | _ => NInf end
  | _, _ => NaN
  end.

Definition xexp (a : xreal) : xreal :=
  match a with
  | Fin x => Fin (exp x)
  | PInf => PInf
  | NInf => Fin 0
  | NaN => NaN
  end.

Definition is_finite (a : xreal) : bool :=
  match a with Fin _ => true | _ => false end.

(** The real number a finite value stands for. *)
Definition to_R (a : xreal) : R :=
  match a with Fin x => x | _ => 0 end.

(** IEEE [<=]: false as soon as one side is NaN. *)
Definition xle (a b : xreal) : Prop :=
  match a, b with
  | NaN, _ | _, NaN => False
  | NInf, _ | _, PInf => True
  | Fin x, Fin y => x <= y
  | _, _ => False
  end.

End XReal.

#[export] Instance xreal_numeric : Numeric xreal := {
  zero := Fin 0;
  one := Fin 1;
  add := XReal.xadd;
  sub := XReal.xsub;
  mul := XReal.xmul;
  div := XReal.xdiv;
  neg := XReal.xneg
}.

#[export] Instance xreal_exponential : Exponential xreal := {
  np_exp := XReal.xexp
}.

(** ** Second instance: IEEE binary32, bit-exact *)

Module Binary32.

Definition prec : Z := 24.
Definition emax : Z := 128.

Definition float32 : Type := spec_float.

Definition is_finite (x : float32) : bool :=
  match x with
  | S754_zero _ | S754_finite _ _ _ => true
  | _ => false
  end.

Definition is_zero (x : float32) : bool :=
  match x with S754_zero _ => true | _ => false end.

(** The same number: identical, or two zeros (of any sign). *)
Definition same_number (a b : float32) : Prop :=
  a = b \/ (is_zero a = true /\ is_zero b = true).

(** Not negative: the sign bit is clear (or the value is the NaN). *)
Definition sign_clear (x : float32) : bool :=
  match x with
  | S754_zero s | S754_infinity s | S754_finite s _ _ => negb s
  | S754_nan => true
  end.

(** The binary32 number nearest to an integer. *)
Definition of_Z (z : Z) : float32 := binary_normalize prec emax z 0 false.

Definition of_Z3 (a : list (list (list Z))) : list (list (list float32)) :=
  map (map (map of_Z)) a.

End Binary32.

#[export] Instance binary32_numeric : Numeric Binary32.float32 := {
  zero := S754_zero false;
  one := SFone Binary32.prec Binary32.emax;
  add := SFadd Binary32.prec Binary32.emax;
  sub := SFsub Binary32.prec Binary32.emax;
  mul := SFmul Binary32.prec Binary32.emax;
  div := SFdiv Binary32.prec Binary32.emax;
  neg := SFopp
}.

(** ** The computation on [xreal] *)

Local Open Scope R_scope.

Definition Rsum (l : list R) : R := fold_right Rplus 0 l.

(** A position holds a real token when its target is not the pad id. *)
Definition is_token {T : Type} (p : list T * Z) : bool :=
  negb (Z.eqb (snd p) pad_id).

(** [predictions[b,t, targets[b,t]]] as a real number. *)
Definition gather_R (p : list xreal * Z) : R :=
  XReal.to_R (nth (Z.to_nat (snd p)) (fst p) (Fin 0)).

(** The entry the one-hot row keeps: the gathered one for an id of the
    vocabulary, nothing (0) for any other id. *)
Definition one_hot_R (p : list xreal * Z) : R :=
  if in_range (snd p) (length (fst p)) then gather_R p else 0.

Definition finite_vec (v : list xreal) : Prop :=
  Forall (fun a => XReal.is_finite a = true) v.

(** Every entry of [predictions] is finite. *)
Definition finite3 (predictions : list (list (list xreal))) : Prop :=
  Forall (Forall finite_vec) predictions.

(** Every target id is in [0, V). *)
Definition targets_in_range (V : nat) (targets : list (list Z)) : Prop :=
  Forall (Forall (fun x => in_range x V = true)) targets.

(** The non-pad positions of a batch and their number. *)
Definition tokens {T : Type} (predictions : list (list (list T)))
           (targets : list (list Z)) : list (list T * Z) :=
  filter is_token (positions predictions targets).

(** The preconditions of the specification: shapes (B, T, V) and (B, T),
    finite predictions, target ids in [0, V). *)
Definition valid_batch (B T V : nat) (predictions : list (list (list xreal)))
           (targets : list (list Z)) : Prop :=
  shape3 B T V predictions /\ shape2 B T targets /\
  finite3 predictions /\ targets_in_range V targets.

Fixpoint pick_from (s : nat) (v : list xreal) (x : Z) : R :=
  match v with
  | [] => 0
  | a :: v' => if Z.eqb x (Z.of_nat s) then XReal.to_R a else pick_from (S s) v' x
  end.

Definition mask_R (x : Z) : R := if Z.eqb x pad_id then 0 else 1.

(** What [total_log_ppx] holds at a position, as a real number. *)
Definition token_R (p : list xreal * Z) : R :=
  XReal.to_R (token_log_ppx (fst p) (snd p)).

(** The sum over the non-pad positions of the log-probability of the true
    class, and the specification's [-(total / count)]. *)
Definition gather_total (predictions : list (list (list xreal)))
           (targets : list (list Z)) : R :=
  Rsum (map gather_R (tokens predictions targets)).

Definition mean_nll (predictions : list (list (list xreal)))
           (targets : list (list Z)) : R :=
  - (gather_total predictions targets / INR (non_pad_count targets)).

(** ** Sample batches

    The scenario of the specification: shape (1, 3, 4), true-class
    log-probabilities -1 and -2, and -5 at the padded position. *)
Definition sample_predictions : list (list (list xreal)) :=
  [[[Fin (-9); Fin (-1); Fin (-8); Fin (-7)];
    [Fin (-6); Fin (-4); Fin (-2); Fin (-3)];
    [Fin (-5); Fin (-9); Fin (-9); Fin (-9)]]].

Definition sample_targets : list (list Z) := [[1; 2; 0]]%Z.

(** The same sequence with every position padded. *)
Definition pad_targets : list (list Z) := [[0; 0; 0]]%Z.

(** The same sequence with the id 7 at the second position: the
    vocabulary has 4 entries. *)
Definition stray_targets : list (list Z) := [[1; 7; 0]]%Z.

(** One position whose vocabulary vector holds [-oo] away from the true
    class. *)
Definition inf_predictions : list (list (list xreal)) :=
  [[[NInf; Fin (-1)]]].

Definition inf_targets : list (list Z) := [[1]]%Z.

(** [sample_predictions] with other values at the padded position. *)
Definition sample_repadded : list (list (list xreal)) :=
  [[[Fin (-9); Fin (-1); Fin (-8); Fin (-7)];
    [Fin (-6); Fin (-4); Fin (-2); Fin (-3)];
    [Fin (-1); Fin 0; Fin (-2); Fin (-3)]]].

(** [sample_predictions] with other values away from the true classes. *)
Definition sample_other_classes : list (list (list xreal)) :=
  [[[Fin 0; Fin (-1); Fin (-1); Fin (-2)];
    [Fin (-3); Fin 0; Fin (-2); Fin 0];
    [Fin (-5); Fin (-1); Fin (-1); Fin (-1)]]].

(** [sample_predictions] with a lower log-probability of the true class
    at the first position. *)
Definition sample_worse : list (list (list xreal)) :=
  [[[Fin (-9); Fin (-4); Fin (-8); Fin (-7)];
    [Fin (-6); Fin (-4); Fin (-2); Fin (-3)];
    [Fin (-5); Fin (-9); Fin (-9); Fin (-9)]]].

Local Close Scope R_scope.

(** ** Sample batches in binary32 *)

(** -1 and -0.875 * 2^128 (about -2.98e38), a finite binary32 number. *)
Definition f32_minus_one : Binary32.float32 := S754_finite true 8388608 (-23).
Definition f32_huge : Binary32.float32 := S754_finite true 14680064 104.

(** Shape (1, 2, 3): two positions, a vocabulary of three. *)
Definition f32_predictions : list (list (list Binary32.float32)) :=
  [[[f32_minus_one; f32_minus_one; f32_huge];
    [f32_minus_one; f32_minus_one; f32_huge]]].

Definition f32_inf_predictions : list (list (list Binary32.float32)) :=
  [[[S754_infinity true; f32_minus_one]]].

(** The sample batches of the [xreal] instance, in binary32. *)
Definition f32_sample_predictions : list (list (list Binary32.float32)) :=
  Binary32.of_Z3 [[[-9; -1; -8; -7]; [-6; -4; -2; -3]; [-5; -9; -9; -9]]]%Z.

Definition f32_sample_repadded : list (list (list Binary32.float32)) :=
  Binary32.of_Z3 [[[-9; -1; -8; -7]; [-6; -4; -2; -3]; [-1; 0; -2; -3]]]%Z.

Definition f32_sample_other_classes : list (list (list Binary32.float32)) :=
  Binary32.of_Z3 [[[0; -1; -1; -2]; [-3; 0; -2; 0]; [-5; -1; -1; -1]]]%Z.

Definition f32_sample_worse : list (list (list Binary32.float32)) :=
  Binary32.of_Z3 [[[-9; -4; -8; -7]; [-6; -4; -2; -3]; [-5; -9; -9; -9]]]%Z.

(** The binary32 numbers nearest to -0.1, -0.3 and -1.1. *)
Definition f32_tenth : Binary32.float32 := S754_finite true 13421773 (-27).
Definition f32_three_tenths : Binary32.float32 :=
  S754_finite true 10066330 (-25).
Definition f32_eleven_tenths : Binary32.float32 :=
  S754_finite true 9227469 (-23).

(** 0.875 * 2^128 (about 2.98e38), the opposite of [f32_huge]. *)
Definition f32_plus_huge : Binary32.float32 := S754_finite false 14680064 104.

(** Shape (3, 1, 2): three sequences of one token, whose true-class
    entries are [f32_huge], [f32_huge] and [f32_plus_huge]. *)
Definition f32_swing : list (list (list Binary32.float32)) :=
  [[[f32_minus_one; f32_huge]];
   [[f32_minus_one; f32_huge]];
   [[f32_minus_one; f32_plus_huge]]].

Definition f32_row_targets : list (list Z) := [[1]; [1]; [1]]%Z.

(** -11184814 * 2^-24 (about -0.6666669), and one sequence of three
    tokens that all give it to their true class. *)
Definition f32_two_thirds : Binary32.float32 :=
  S754_finite true 11184814 (-24).

Definition f32_thirds : list (list (list Binary32.float32)) :=
  [[[f32_minus_one; f32_two_thirds];
    [f32_minus_one; f32_two_thirds];
    [f32_minus_one; f32_two_thirds]]].

(** The number a binary32 value stands for. *)
Definition f32_value (a : Binary32.float32) : xreal :=
  match a with
  | S754_zero _ => Fin 0
  | S754_infinity s => if s then NInf else PInf
  | S754_nan => NaN
  | S754_finite s m e =>
      Fin ((if s then - IZR (Z.pos m) else IZR (Z.pos m)) * powerRZ 2 e)%R
  end.

Definition f32_value3 (a : list (list (list Binary32.float32)))
  : list (list (list xreal)) :=
  map (map (map f32_value)) a.

(** A well-formed finite binary32 number: a zero, or a mantissa and an
    exponent in the format's bounds. *)
Definition f32_finite (a : Binary32.float32) : Prop :=
  Binary32.is_finite a = true /\
  valid_binary Binary32.prec Binary32.emax a = true.

(** The entry the one-hot row keeps, in binary32: the gathered one for
    an id of the vocabulary, a zero for any other id. *)
Definition f32_gather (p : list Binary32.float32 * Z) : Binary32.float32 :=
  if in_range (snd p) (length (fst p))
  then nth (Z.to_nat (snd p)) (fst p) zero
  else zero.

(** Every entry of a binary32 [predictions] is a well-formed finite
    number. *)
Definition f32_valid3 (predictions : list (list (list Binary32.float32)))
  : Prop :=
  Forall (Forall (Forall f32_finite)) predictions.

(** Every entry of a binary32 [predictions] is finite. *)
Definition f32_finite3 (predictions : list (list (list Binary32.float32)))
  : Prop :=
  Forall (Forall (Forall (fun a => Binary32.is_finite a = true))) predictions.

(** ** Further definitions: shapes of float arrays, padded batches *)

(** A two-dimensional array of any element type has shape (B, T). *)
Definition array_shape2 {A : Type} (B T : nat) (a : list (list A)) : Prop :=
  length a = B /\ Forall (fun row => length row = T) a.

(** What [real_log_ppx] makes of an entry [a] of [total_log_ppx] facing
    the target id [x]: the value [z] at a pad position, [a] itself
    elsewhere. *)
Definition keep_non_pad {T : Type} (z : T -> T) (a : T) (x : Z) : T :=
  if Z.eqb x pad_id then z a else a.

(** The sign bit of a binary32 number (clear for the NaN). *)
Definition f32_sign (a : Binary32.float32) : bool :=
  match a with
  | S754_zero s | S754_infinity s | S754_finite s _ _ => s
  | S754_nan => false
  end.

(** Right-padding: every sequence gets [k] more positions, with the
    vocabulary vectors of [pad] and the pad id as target. *)
Definition pad_right_predictions {T : Type}
           (predictions pad : list (list (list T))) : list (list (list T)) :=
  zip_with (@app (list T)) predictions pad.

Definition pad_right_targets (k : nat) (targets : list (list Z))
  : list (list Z) :=
  map (fun row => row ++ repeat pad_id k) targets.

Ltac concrete := repeat constructor.

Ltac sample_position b t Hb Ht :=
  intros b t Hb Ht;
  destruct b as [|b]; [|exfalso; lia];
  destruct t as [|[|[|t]]]; [| | |exfalso; lia].

(** * Proofs *)

(** ** Shapes and the pure reading of the cells *)

Section Shapes.
Context {T : Type} `{Numeric T}.

Lemma zipM_ok {A B C : Type} (f : A -> B -> outcome C) (g : A -> B -> C)
      (xs : list A) (ys : list B) :
  Forall2 (fun x y => f x y = Ok (g x y)) xs ys ->
  zipM f xs ys = Ok (zip_with g xs ys).
Proof.
  induction 1 as [|x y xs ys Hxy _ IH]; simpl.
  - reflexivity.
  - rewrite Hxy, IH. reflexivity.
Qed.

Lemma broadcast_same_length {A B C : Type} (f : A -> B -> outcome C)
      (xs : list A) (ys : list B) :
  length xs = length ys -> broadcast f xs ys = zipM f xs ys.
Proof.
  destruct xs as [|x [|x' xs]], ys as [|y [|y' ys]];
    simpl; intros E; try discriminate; reflexivity.
Qed.

Lemma broadcast_ok {A B C : Type} (f : A -> B -> outcome C) (g : A -> B -> C)
      (xs : list A) (ys : list B) :
  Forall2 (fun x y => f x y = Ok (g x y)) xs ys ->
  broadcast f xs ys = Ok (zip_with g xs ys).
Proof.
  intros F. rewrite broadcast_same_length.
  - now apply zipM_ok.
  - eapply Forall2_length; eassumption.
Qed.

Lemma zip_with_map_r {A B B' C : Type} (g : A -> B' -> C) (h : B -> B')
      (xs : list A) (ys : list B) :
  zip_with g xs (map h ys) = zip_with (fun x y => g x (h y)) xs ys.
Proof.
  revert ys; induction xs as [|x xs IH]; intros [|y ys]; simpl;
    try reflexivity.
  now rewrite IH.
Qed.

Lemma map_zip_with {A B C D : Type} (h : C -> D) (g : A -> B -> C)
      (xs : list A) (ys : list B) :
  map h (zip_with g xs ys) = zip_with (fun x y => h (g x y)) xs ys.
Proof.
  revert ys; induction xs as [|x xs IH]; intros [|y ys]; simpl;
    try reflexivity.
  now rewrite IH.
Qed.

Lemma zip_with_zip_with_l {A B C D : Type} (g : C -> B -> D) (a : A -> B -> C)
      (xs : list A) (ys : list B) :
  zip_with g (zip_with a xs ys) ys = zip_with (fun x y => g (a x y) y) xs ys.
Proof.
  revert ys; induction xs as [|x xs IH]; intros [|y ys]; simpl;
    try reflexivity.
  now rewrite IH.
Qed.

Lemma zip_with_ext_Forall2 {A B C : Type} (g g' : A -> B -> C)
      (xs : list A) (ys : list B) :
  Forall2 (fun x y => g x y = g' x y) xs ys ->
  zip_with g xs ys = zip_with g' xs ys.
Proof.
  induction 1 as [|x y xs ys Hxy _ IH]; simpl; congruence.
Qed.

Lemma Forall2_map_r {A B B' : Type} (P : A -> B' -> Prop) (h : B -> B')
      (xs : list A) (ys : list B) :
  Forall2 (fun x y => P x (h y)) xs ys -> Forall2 P xs (map h ys).
Proof. induction 1; simpl; constructor; assumption. Qed.

Lemma Forall2_zip_with_l {A B C : Type} (P : C -> B -> Prop) (a : A -> B -> C)
      (xs : list A) (ys : list B) :
  Forall2 (fun x y => P (a x y) y) xs ys ->
  Forall2 P (zip_with a xs ys) ys.
Proof. induction 1; simpl; constructor; assumption. Qed.

Lemma length_one_hot (x : Z) (n : nat) : length (one_hot x n) = n.
Proof. unfold one_hot. now rewrite length_map, length_seq. Qed.

(** Arrays of shapes (B, T, V) and (B, T) are aligned on
    [predictions.shape[-1]]. *)
Lemma shapes_aligned (B T' V : nat)
      (predictions : list (list (list T))) (targets : list (list Z)) :
  shape3 B T' V predictions -> shape2 B T' targets ->
  aligned (last_dim predictions) predictions targets.
Proof.
  intros [HB HP] [HB' HT].
  assert (HV : Forall (Forall (fun v => length v = last_dim predictions))
                      predictions).
  { destruct predictions as [|[|v row] rest].
    - constructor.
    - inversion HP as [|? ? [HT0 _] HP']; subst.
      rewrite Forall_forall in *. intros r Hr.
      destruct Hr as [<-|Hr]; [constructor|].
      destruct (HP' r Hr) as [Hlen _]. simpl in Hlen.
      destruct r; [constructor|discriminate].
    - simpl. rewrite Forall_forall in HP.
      assert (Hv : length v = V).
      { destruct (HP (v :: row) (or_introl eq_refl)) as [_ HV0].
        rewrite Forall_forall in HV0. apply HV0. now left. }
      rewrite Forall_forall. intros r Hr.
      rewrite Forall_forall. intros w Hw.
      destruct (HP r Hr) as [_ HVr].
      rewrite Forall_forall in HVr. rewrite (HVr w Hw). now rewrite Hv. }
  unfold aligned in *. generalize dependent (last_dim predictions). intros n HV.
  subst B. revert targets HB' HT HV.
  induction predictions as [|row rest IH]; intros [|trow trest] HB' HT HV;
    simpl in HB'; try discriminate; constructor.
  - inversion HP as [|? ? [HT0 _] _]; subst.
    inversion HT as [|? ? HT1 _]; subst.
    inversion HV as [|? ? HV0 _]; subst. clear - HT1 HV0.
    revert trow HT1. induction row as [|v row IHr]; intros [|x trow] HT1;
      simpl in HT1; try discriminate; constructor.
    + now inversion HV0.
    + apply IHr; [now inversion HV0 | congruence].
  - inversion HP; inversion HT; inversion HV; subst.
    apply IH; auto.
Qed.

(** On aligned arrays no cell raises: [total_log_ppx] is the array of
    the [token_log_ppx] values and [real_log_ppx] the array of the
    [masked] values. *)
Lemma total_log_ppx_aligned
      (predictions : list (list (list T))) (targets : list (list Z)) :
  aligned (last_dim predictions) predictions targets ->
  total_log_ppx predictions targets
  = Ok (zip_with (zip_with token_log_ppx) predictions targets).
Proof.
  unfold total_log_ppx, aligned in *.
  generalize (last_dim predictions). intros n HA.
  assert (E3 : mul3 predictions (reshaped_targets targets n)
               = Ok (zip_with (zip_with (fun v x =>
                       zip_with mul v (one_hot x (length v))))
                     predictions targets)).
  { unfold mul3, reshaped_targets.
    rewrite (broadcast_ok mul2 (zip_with (zip_with mul))).
    - rewrite zip_with_map_r. f_equal.
      apply zip_with_ext_Forall2.
      eapply Forall2_impl; [|exact HA]. intros row trow Hrow. simpl in *.
      rewrite zip_with_map_r. apply zip_with_ext_Forall2.
      eapply Forall2_impl; [|exact Hrow]. intros v x Hv. simpl in *.
      now rewrite Hv.
    - apply Forall2_map_r.
      eapply Forall2_impl; [|exact HA]. intros row trow Hrow. simpl in *.
      unfold mul2. apply broadcast_ok. apply Forall2_map_r.
      eapply Forall2_impl; [|exact Hrow]. intros v x Hv. simpl in *.
      unfold mul1. apply broadcast_ok.
      assert (L : length v = length (one_hot x n))
        by now rewrite length_one_hot.
      revert L. generalize (one_hot x n). clear.
      induction v as [|a v IH]; intros [|b l] L; simpl in L;
        try discriminate; constructor.
      + reflexivity.
      + apply IH. congruence. }
  rewrite E3. simpl.
  rewrite map_zip_with. f_equal.
  apply zip_with_ext_Forall2.
  eapply Forall2_impl; [|exact HA]. intros row trow _. simpl.
  now rewrite map_zip_with.
Qed.

Lemma real_log_ppx_aligned
      (predictions : list (list (list T))) (targets : list (list Z)) :
  aligned (last_dim predictions) predictions targets ->
  real_log_ppx predictions targets
  = Ok (zip_with (zip_with masked) predictions targets).
Proof.
  intros HA. unfold real_log_ppx.
  rewrite (total_log_ppx_aligned HA). simpl.
  unfold mul2, non_pad.
  rewrite (broadcast_ok mul1 (zip_with mul)).
  - rewrite zip_with_map_r, zip_with_zip_with_l. f_equal.
    apply zip_with_ext_Forall2.
    eapply Forall2_impl; [|exact HA]. intros row trow _. simpl.
    rewrite zip_with_map_r. now rewrite zip_with_zip_with_l.
  - apply Forall2_map_r. apply Forall2_zip_with_l.
    eapply Forall2_impl; [|exact HA]. intros row trow Hrow. simpl in *.
    apply broadcast_ok. apply Forall2_map_r. apply Forall2_zip_with_l.
    eapply Forall2_impl; [|exact Hrow]. intros v x _. reflexivity.
Qed.

Lemma concat_zip_with2 {C : Type} (f : list T -> Z -> C)
      (predictions : list (list (list T))) (targets : list (list Z)) :
  concat (zip_with (zip_with f) predictions targets)
  = map (fun p => f (fst p) (snd p)) (positions predictions targets).
Proof.
  unfold positions. revert targets.
  induction predictions as [|row rest IH]; intros [|trow trest]; simpl;
    try reflexivity.
  rewrite map_app, IH. f_equal.
  clear. revert trow. induction row as [|v row IH]; intros [|x trow]; simpl;
    try reflexivity.
  now rewrite IH.
Qed.

Lemma concat_map_aligned {C : Type} (f : Z -> C) (n : nat)
      (predictions : list (list (list T))) (targets : list (list Z)) :
  aligned n predictions targets ->
  concat (map (map f) targets)
  = map (fun p => f (snd p)) (positions predictions targets).
Proof.
  unfold positions, aligned in *.
  induction 1 as [|row trow rest trest Hrow _ IH]; simpl.
  - reflexivity.
  - rewrite map_app, IH. f_equal.
    clear - Hrow. induction Hrow; simpl; congruence.
Qed.

(** On aligned arrays [log_ppx] is a quotient of two flat sums. *)
Lemma log_ppx_aligned
      (predictions : list (list (list T))) (targets : list (list Z)) :
  aligned (last_dim predictions) predictions targets ->
  log_ppx predictions targets
  = Ok (neg (div
       (np_sum (map (fun p => masked (fst p) (snd p))
                    (positions predictions targets)))
       (np_sum (map (fun p => mask (snd p))
                    (positions predictions targets))))).
Proof.
  intros HA. unfold log_ppx.
  rewrite (real_log_ppx_aligned HA). simpl.
  unfold np_sum2, non_pad.
  rewrite concat_zip_with2.
  now rewrite (concat_map_aligned _ HA).
Qed.

(** A relation that holds index by index holds along the flat list of
    positions of two batches with the same targets. *)
Lemma positions_Forall2 (R : list T * Z -> list T * Z -> Prop)
      (n n' : nat)
      (p p' : list (list (list T))) (targets : list (list Z)) :
  aligned n p targets -> aligned n' p' targets ->
  (forall b t, (b < length targets)%nat ->
               (t < length (nth b targets []))%nat ->
               R (vec_at p b t, target_at targets b t)
                 (vec_at p' b t, target_at targets b t)) ->
  Forall2 R (positions p targets) (positions p' targets).
Proof.
  unfold positions, aligned in *. intros HA. revert p'.
  induction HA as [|row trow rest trest Hrow _ IH]; intros p' HA' HR.
  - inversion HA'; subst. constructor.
  - inversion HA' as [|row' ? rest' ? Hrow' HA'']; subst. simpl.
    apply Forall2_app.
    + assert (HR0 : forall t, (t < length trow)%nat ->
                R (nth t row [], nth t trow 0%Z) (nth t row' [], nth t trow 0%Z)).
      { intros t Ht. apply (HR 0%nat t); simpl; [lia | exact Ht]. }
      clear - Hrow Hrow' HR0. revert row' Hrow' HR0.
      induction Hrow as [|v x row trow _ _ IHr]; intros row' Hrow' HR0.
      * inversion Hrow'; subst. constructor.
      * inversion Hrow' as [|v' ? row'' ? _ Hrow'']; subst. simpl.
        constructor.
        -- apply (HR0 0%nat). simpl. lia.
        -- apply IHr; [exact Hrow''|].
           intros t Ht. apply (HR0 (S t)). simpl. lia.
    + apply IH; [exact HA''|].
      intros b t Hb Ht. apply (HR (S b) t); simpl; [lia | exact Ht].
Qed.

Lemma nth_zip_with_rows {A B C : Type} (f : A -> B -> C)
      (xs : list (list A)) (ys : list (list B)) (i : nat) :
  length xs = length ys ->
  nth i (zip_with (zip_with f) xs ys) []
  = zip_with f (nth i xs []) (nth i ys []).
Proof.
  revert ys i. induction xs as [|x xs IH]; intros [|y ys] i E;
    simpl in E; try discriminate.
  - destruct i; reflexivity.
  - destruct i; simpl; [reflexivity|]. apply IH. congruence.
Qed.

Lemma map_nth_seq {A : Type} (a : list (list A)) (k : nat) :
  (k <= length a)%nat ->
  map (fun i => nth i a []) (seq 0 k) = firstn k a.
Proof.
  induction k as [|k IH]; intros Hk.
  - reflexivity.
  - rewrite seq_S, map_app, IH by lia. simpl.
    clear IH. revert k Hk. induction a as [|x a IHa]; intros k Hk;
      simpl in Hk; [lia|].
    destruct k; simpl; [reflexivity|].
    f_equal. apply IHa. lia.
Qed.

Lemma permute_rows_Permutation {A : Type} (sigma : list nat)
      (a : list (list A)) :
  Permutation sigma (seq 0 (length a)) ->
  Permutation (permute_rows sigma a) a.
Proof.
  intros HP. unfold permute_rows.
  rewrite (Permutation_map (fun i => nth i a []) HP).
  rewrite map_nth_seq by lia. now rewrite firstn_all.
Qed.

Lemma Permutation_concat {A : Type} (l l' : list (list A)) :
  Permutation l l' -> Permutation (concat l) (concat l').
Proof.
  induction 1 as [|x l l' _ IH|x y l|l l' l'' _ IH1 _ IH2]; simpl.
  - constructor.
  - now apply Permutation_app_head.
  - rewrite !app_assoc. apply Permutation_app_tail.
    apply Permutation_app_comm.
  - now transitivity (concat l').
Qed.

(** Permuting the rows of both arrays permutes the positions. *)
Lemma positions_permute_rows (sigma : list nat)
      (predictions : list (list (list T))) (targets : list (list Z)) :
  length predictions = length targets ->
  Permutation sigma (seq 0 (length predictions)) ->
  Permutation (positions (permute_rows sigma predictions)
                         (permute_rows sigma targets))
              (positions predictions targets).
Proof.
  intros E HP. unfold positions.
  assert (Z : zip_with (zip_with pair) (permute_rows sigma predictions)
                       (permute_rows sigma targets)
              = permute_rows sigma
                  (zip_with (zip_with pair) predictions targets)).
  { unfold permute_rows. clear HP.
    induction sigma as [|i sigma IH]; simpl; [reflexivity|].
    rewrite IH. f_equal. symmetry. now apply nth_zip_with_rows. }
  rewrite Z. apply Permutation_concat.
  apply permute_rows_Permutation.
  replace (length (zip_with (zip_with pair) predictions targets))
    with (length predictions); [exact HP|].
  clear - E. revert targets E.
  induction predictions as [|x xs IH]; intros [|y ys] E; simpl in *;
    try discriminate; [reflexivity|].
  f_equal. apply IH. congruence.
Qed.

Lemma positions_rel (R : list T * Z -> list T * Z -> Prop)
      (B T' V : nat) (p p' : list (list (list T))) (targets : list (list Z)) :
  shape3 B T' V p -> shape3 B T' V p' -> shape2 B T' targets ->
  (forall b t, (b < B)%nat -> (t < T')%nat ->
               R (vec_at p b t, target_at targets b t)
                 (vec_at p' b t, target_at targets b t)) ->
  Forall2 R (positions p targets) (positions p' targets).
Proof.
  intros H3 H3' H2 HR.
  apply (positions_Forall2 R (shapes_aligned H3 H2) (shapes_aligned H3' H2)).
  destruct H2 as [HB HT]. intros b t Hb Ht.
  assert (Hrow : length (nth b targets []) = T').
  { rewrite Forall_forall in HT. apply HT, nth_In, Hb. }
  apply HR; lia.
Qed.

Lemma vec_at_Forall (Q : list T -> Prop)
      (predictions : list (list (list T))) (b t : nat) :
  Forall (Forall Q) predictions ->
  (b < length predictions)%nat ->
  (t < length (nth b predictions []))%nat ->
  Q (vec_at predictions b t).
Proof.
  intros HQ Hb Ht. unfold vec_at.
  rewrite Forall_forall in HQ.
  specialize (HQ _ (nth_In predictions [] Hb)).
  rewrite Forall_forall in HQ. apply HQ. now apply nth_In.
Qed.

Lemma vec_at_shape (B T' V : nat)
      (predictions : list (list (list T))) (b t : nat) :
  shape3 B T' V predictions -> (b < B)%nat -> (t < T')%nat ->
  length (vec_at predictions b t) = V /\
  (b < length predictions)%nat /\
  (t < length (nth b predictions []))%nat.
Proof.
  intros [HB HP] Hb Ht. subst B.
  rewrite Forall_forall in HP.
  destruct (HP _ (nth_In predictions [] Hb)) as [HT HV].
  split; [|split; [exact Hb | now rewrite HT]].
  unfold vec_at. rewrite Forall_forall in HV. apply HV, nth_In.
  now rewrite HT.
Qed.

Lemma map_snd_positions (n : nat)
      (predictions : list (list (list T))) (targets : list (list Z)) :
  aligned n predictions targets ->
  map snd (positions predictions targets) = concat targets.
Proof.
  unfold positions, aligned in *.
  induction 1 as [|row trow rest trest Hrow _ IH]; simpl.
  - reflexivity.
  - rewrite map_app, IH. f_equal.
    clear - Hrow. induction Hrow; simpl; congruence.
Qed.

Lemma compute_of_log_ppx `{Exponential T}
      (predictions : list (list (list T))) (targets : list (list Z)) (l : T) :
  log_ppx predictions targets = Ok l ->
  compute predictions targets = Ok (l, np_exp l).
Proof. intros E. unfold compute. now rewrite E. Qed.

(** No cell raises [IndexOutOfRange] or [DivisionByZero], whatever the
    scalar operations are: on aligned arrays [compute] returns a pair. *)
Lemma compute_returns `{Exponential T}
      (predictions : list (list (list T))) (targets : list (list Z)) :
  aligned (last_dim predictions) predictions targets ->
  exists l, compute predictions targets = Ok (l, np_exp l).
Proof.
  intros HA. eexists. apply compute_of_log_ppx. exact (log_ppx_aligned HA).
Qed.

End Shapes.

(** ** Batches of padding only, for any IEEE-like scalar type

    What the argument needs of the scalars: a set of values (the zeros
    and the NaN) that contains [0], is closed under [+], contains every
    product with the mask value [1.0 - 1.0] of a pad position, and whose
    quotients by [0] are the NaN. *)

Section AllPadding.
Context {T : Type} `{Numeric T}.
Variable zero_or_nan : T -> Prop.
Variable nan : T.
Hypothesis zn_zero : zero_or_nan zero.
Hypothesis zn_add :
  forall a b, zero_or_nan a -> zero_or_nan b -> zero_or_nan (add a b).
Hypothesis zn_mul_mask : forall t, zero_or_nan (mul t (mask pad_id)).
Hypothesis count_pad : add zero (mask pad_id) = zero.
Hypothesis zn_div : forall a, zero_or_nan a -> div a zero = nan.
Hypothesis neg_nan : neg nan = nan.

Lemma fold_add_zero_or_nan (l : list T) (a : T) :
  Forall zero_or_nan l -> zero_or_nan a -> zero_or_nan (fold_left add l a).
Proof.
  intros HF. revert a. induction HF as [|y l Hy _ IH]; intros a Ha; simpl.
  - exact Ha.
  - apply IH. now apply zn_add.
Qed.

Lemma fold_add_pad_masks {A : Type} (l : list A) :
  fold_left add (map (fun _ => mask pad_id) l) zero = zero.
Proof.
  induction l as [|p l IH]; simpl; [reflexivity|].
  now rewrite count_pad.
Qed.

Lemma log_ppx_all_pad
      (predictions : list (list (list T))) (targets : list (list Z)) :
  aligned (last_dim predictions) predictions targets ->
  Forall (Forall (fun x => x = pad_id)) targets ->
  log_ppx predictions targets = Ok nan.
Proof.
  intros HA Hpad.
  assert (Hsnd : Forall (fun p => snd p = pad_id)
                        (positions predictions targets)).
  { apply Forall_map with (f := snd) (P := fun x => x = pad_id).
    rewrite (map_snd_positions HA). now apply Forall_concat. }
  rewrite (log_ppx_aligned HA). f_equal.
  set (pos := positions predictions targets) in *.
  assert (Hc : np_sum (map (fun p => mask (snd p)) pos) = zero).
  { replace (map (fun p => mask (snd p)) pos)
      with (map (fun _ : list T * Z => mask pad_id) pos).
    - apply fold_add_pad_masks.
    - apply map_ext_in. intros p Hin.
      rewrite Forall_forall in Hsnd. now rewrite (Hsnd p Hin). }
  assert (Ht : zero_or_nan (np_sum (map (fun p => masked (fst p) (snd p)) pos))).
  { apply fold_add_zero_or_nan; [|exact zn_zero].
    apply Forall_map. rewrite Forall_forall in *. intros p Hin.
    unfold masked. rewrite (Hsnd p Hin). apply zn_mul_mask. }
  now rewrite Hc, (zn_div Ht), neg_nan.
Qed.

End AllPadding.

(** ** Two batches with the same targets, for any IEEE-like scalar type

    What the argument needs of the scalars: a relation [same] ("the same
    number": identical, or two zeros of any sign) that [+], [*], [/] and
    [-] respect on the left, and the fact that a finite value times [0]
    or times the mask of a pad position is a zero. *)

Section SameNumber.
Context {T : Type} `{Numeric T}.
Variable same : T -> T -> Prop.
Variable finite : T -> Prop.
Hypothesis same_refl : forall a, same a a.
Hypothesis same_add :
  forall a a' b b', same a a' -> same b b' -> same (add a b) (add a' b').
Hypothesis same_mul : forall a a' b, same a a' -> same (mul a b) (mul a' b).
Hypothesis same_div : forall a a' b, same a a' -> same (div a b) (div a' b).
Hypothesis same_neg : forall a a', same a a' -> same (neg a) (neg a').
Hypothesis mul_zero :
  forall a b, finite a -> finite b -> same (mul a zero) (mul b zero).
Hypothesis mul_pad :
  forall a b, finite a -> finite b ->
              same (mul a (mask pad_id)) (mul b (mask pad_id)).

Lemma fold_add_same (l l' : list T) (a a' : T) :
  Forall2 same l l' -> same a a' ->
  same (fold_left add l a) (fold_left add l' a').
Proof.
  intros HF. revert a a'.
  induction HF as [|x y l l' Hxy _ IH]; intros a a' Ha; simpl.
  - exact Ha.
  - apply IH. now apply same_add.
Qed.

Lemma products_same (x : Z) (v v' : list T) (s : nat) :
  length v = length v' -> Forall finite v -> Forall finite v' ->
  (forall i, x = Z.of_nat (s + i) -> nth i v zero = nth i v' zero) ->
  Forall2 same
    (zip_with mul v (map (fun i => of_bool (Z.eqb x (Z.of_nat i)))
                         (seq s (length v))))
    (zip_with mul v' (map (fun i => of_bool (Z.eqb x (Z.of_nat i)))
                          (seq s (length v')))).
Proof.
  revert v' s. induction v as [|a v IH]; intros [|a' v'] s HL HF HF' Hx;
    simpl in HL; try discriminate; simpl; constructor.
  - destruct (Z.eqb_spec x (Z.of_nat s)) as [E|_]; simpl.
    + specialize (Hx 0%nat). simpl in Hx. rewrite Hx; [apply same_refl|].
      now rewrite Nat.add_0_r.
    + inversion HF; inversion HF'; subst. now apply mul_zero.
  - inversion HF; inversion HF'; subst.
    apply IH; [congruence|assumption|assumption|].
    intros i Hi. apply (Hx (S i)). rewrite Hi. f_equal. lia.
Qed.

(** Two finite vocabulary vectors that agree in the entry of the id [x]
    have the same one-hot sum. *)
Lemma token_log_ppx_same (x : Z) (v v' : list T) :
  length v = length v' -> Forall finite v -> Forall finite v' ->
  nth (Z.to_nat x) v zero = nth (Z.to_nat x) v' zero ->
  same (token_log_ppx v x) (token_log_ppx v' x).
Proof.
  intros HL HF HF' Hx. unfold token_log_ppx, np_sum, one_hot.
  apply fold_add_same; [|apply same_refl].
  apply products_same; try assumption.
  intros i Hi. simpl in Hi. subst x. now rewrite Nat2Z.id in Hx.
Qed.

Lemma log_ppx_same (B T' V : nat)
      (p p' : list (list (list T))) (targets : list (list Z)) :
  shape3 B T' V p -> shape3 B T' V p' -> shape2 B T' targets ->
  (forall b t, (b < B)%nat -> (t < T')%nat ->
     same (masked (vec_at p b t) (target_at targets b t))
          (masked (vec_at p' b t) (target_at targets b t))) ->
  exists l l',
    log_ppx p targets = Ok l /\ log_ppx p' targets = Ok l' /\ same l l'.
Proof.
  intros H3 H3' H2 Hm.
  pose proof (shapes_aligned H3 H2) as HA.
  pose proof (shapes_aligned H3' H2) as HA'.
  do 2 eexists.
  split; [exact (log_ppx_aligned HA)|].
  split; [exact (log_ppx_aligned HA')|].
  assert (HR : Forall2 (fun a b : list T * Z =>
                 snd a = snd b /\
                 same (masked (fst a) (snd a)) (masked (fst b) (snd b)))
               (positions p targets) (positions p' targets)).
  { apply (positions_rel _ H3 H3' H2). intros b t Hb Ht. simpl.
    split; [reflexivity | now apply Hm]. }
  assert (Hc : map (fun a => mask (snd a)) (positions p targets)
             = map (fun a => mask (snd a)) (positions p' targets)).
  { clear - HR. induction HR as [|a b l l' [Hs _] _ IH]; simpl;
      [reflexivity|]. now rewrite Hs, IH. }
  rewrite Hc. apply same_neg, same_div.
  apply fold_add_same; [|apply same_refl].
  clear - HR. induction HR as [|a b l l' [_ Hs] _ IH]; simpl; constructor;
    assumption.
Qed.

(** Two finite batches with the same targets that agree, at every
    position, in the entry of the true class have the same
    log-perplexity. *)
Lemma log_ppx_same_true_class (B T' V : nat)
      (p p' : list (list (list T))) (targets : list (list Z)) :
  shape3 B T' V p -> shape3 B T' V p' -> shape2 B T' targets ->
  Forall (Forall (Forall finite)) p -> Forall (Forall (Forall finite)) p' ->
  (forall b t, (b < B)%nat -> (t < T')%nat ->
     true_log_prob p targets b t = true_log_prob p' targets b t) ->
  exists l l',
    log_ppx p targets = Ok l /\ log_ppx p' targets = Ok l' /\ same l l'.
Proof.
  intros H3 H3' H2 HF HF' Hagree.
  apply (log_ppx_same H3 H3' H2). intros b t Hb Ht.
  destruct (vec_at_shape H3 Hb Ht) as (HV & Hb1 & Ht1).
  destruct (vec_at_shape H3' Hb Ht) as (HV' & Hb2 & Ht2).
  unfold masked. apply same_mul, token_log_ppx_same.
  - congruence.
  - now apply (vec_at_Forall (Q := Forall finite)).
  - now apply (vec_at_Forall (Q := Forall finite)).
  - exact (Hagree b t Hb Ht).
Qed.

(** Two batches with the same targets and finite [total_log_ppx]
    entries at the pad positions, that agree at every non-pad position,
    have the same log-perplexity. *)
Lemma log_ppx_same_tokens (B T' V : nat)
      (p p' : list (list (list T))) (targets : list (list Z)) :
  shape3 B T' V p -> shape3 B T' V p' -> shape2 B T' targets ->
  (forall b t, (b < B)%nat -> (t < T')%nat ->
     target_at targets b t = pad_id ->
     finite (token_log_ppx (vec_at p b t) pad_id) /\
     finite (token_log_ppx (vec_at p' b t) pad_id)) ->
  (forall b t, (b < B)%nat -> (t < T')%nat ->
     target_at targets b t <> pad_id -> vec_at p b t = vec_at p' b t) ->
  exists l l',
    log_ppx p targets = Ok l /\ log_ppx p' targets = Ok l' /\ same l l'.
Proof.
  intros H3 H3' H2 Hfin Hagree.
  apply (log_ppx_same H3 H3' H2). intros b t Hb Ht.
  destruct (Z.eq_dec (target_at targets b t) pad_id) as [E|N].
  - rewrite E. unfold masked.
    destruct (Hfin b t Hb Ht E) as [F F']. now apply mul_pad.
  - rewrite (Hagree b t Hb Ht N). apply same_refl.
Qed.

End SameNumber.

(** ** Facts on [xreal] *)

Local Open Scope R_scope.

Lemma Rsum_cons (x : R) (l : list R) : Rsum (x :: l) = x + Rsum l.
Proof. reflexivity. Qed.

Lemma fold_add_Fin (l : list R) (a : R) :
  fold_left add (map Fin l) (Fin a) = Fin (a + Rsum l).
Proof.
  revert a. induction l as [|x l IH]; intros a; simpl.
  - f_equal. lra.
  - rewrite IH. f_equal. lra.
Qed.

Lemma np_sum_Fin (l : list R) : np_sum (map Fin l) = Fin (Rsum l).
Proof. unfold np_sum. simpl. rewrite fold_add_Fin. f_equal. lra. Qed.

Lemma pick_from_spec (s : nat) (v : list xreal) (x : Z) :
  pick_from s v x
  = if ((Z.of_nat s <=? x)%Z && (x <? Z.of_nat (s + length v))%Z)%bool
    then XReal.to_R (nth (Z.to_nat x - s) v (Fin 0)) else 0.
Proof.
  revert s. induction v as [|a v IH]; intros s; simpl.
  - destruct (_ && _)%bool eqn:E; [|reflexivity].
    apply andb_true_iff in E. destruct E as [E1 E2].
    apply Z.leb_le in E1. apply Z.ltb_lt in E2. lia.
  - destruct (Z.eqb_spec x (Z.of_nat s)) as [->|Hne].
    + rewrite Nat2Z.id, Nat.sub_diag.
      replace (_ && _)%bool with true; [reflexivity|].
      symmetry. apply andb_true_iff. split; [apply Z.leb_le | apply Z.ltb_lt]; lia.
    + rewrite IH.
      destruct ((Z.of_nat (S s) <=? x)%Z && (x <? Z.of_nat (S s + length v))%Z)%bool
        eqn:E.
      * apply andb_true_iff in E. destruct E as [E1 E2].
        apply Z.leb_le in E1. apply Z.ltb_lt in E2.
        replace (_ && _)%bool with true.
        2:{ symmetry. apply andb_true_iff.
            split; [apply Z.leb_le | apply Z.ltb_lt]; lia. }
        replace (Z.to_nat x - s)%nat with (S (Z.to_nat x - S s)) by lia.
        reflexivity.
      * replace ((Z.of_nat s <=? x)%Z && (x <? Z.of_nat (s + S (length v)))%Z)%bool
          with false; [reflexivity|].
        symmetry. apply andb_false_iff. apply andb_false_iff in E.
        destruct E as [E|E]; [left; apply Z.leb_gt in E; apply Z.leb_gt
                             |right; apply Z.ltb_ge in E; apply Z.ltb_ge]; lia.
Qed.

Lemma pick_from_one_hot (v : list xreal) (x : Z) :
  pick_from 0 v x = one_hot_R (v, x).
Proof.
  rewrite pick_from_spec. unfold one_hot_R, gather_R, in_range. simpl.
  now rewrite Nat.sub_0_r.
Qed.

Lemma pick_from_below (s : nat) (v : list xreal) (x : Z) :
  (x < Z.of_nat s)%Z -> pick_from s v x = 0.
Proof.
  revert s. induction v as [|a v IH]; intros s Hx; simpl; [reflexivity|].
  destruct (Z.eqb_spec x (Z.of_nat s)); [lia|]. apply IH. lia.
Qed.

(** On a finite vocabulary vector the one-hot product and sum keep one
    entry. *)
Lemma fold_one_hot (v : list xreal) (x : Z) (s : nat) (a : R) :
  finite_vec v ->
  fold_left add
    (zip_with mul v (map (fun i => of_bool (Z.eqb x (Z.of_nat i)))
                         (seq s (length v))))
    (Fin a)
  = Fin (a + pick_from s v x).
Proof.
  intros Hv. revert s a. induction Hv as [|y v Hy _ IH]; intros s a; simpl.
  - f_equal. lra.
  - destruct y as [r| | |]; try discriminate.
    cbn [length seq map zip_with fold_left pick_from XReal.to_R].
    destruct (Z.eqb_spec x (Z.of_nat s)) as [E|_]; cbn [of_bool].
    + etransitivity; [exact (IH (S s) (a + r * 1)) | ].
      rewrite pick_from_below by lia. f_equal. lra.
    + etransitivity; [exact (IH (S s) (a + r * 0)) | f_equal; lra].
Qed.

Lemma token_log_ppx_finite (v : list xreal) (x : Z) :
  finite_vec v -> token_log_ppx v x = Fin (one_hot_R (v, x)).
Proof.
  intros Hv. unfold token_log_ppx, np_sum, one_hot. simpl zero.
  rewrite fold_one_hot by assumption.
  rewrite pick_from_one_hot. f_equal. lra.
Qed.

Lemma mask_Fin (x : Z) : mask x = Fin (mask_R x).
Proof.
  unfold mask, mask_R. destruct (Z.eqb x pad_id); simpl; f_equal; lra.
Qed.

Lemma masked_finite (v : list xreal) (x : Z) :
  finite_vec v -> masked v x = Fin (one_hot_R (v, x) * mask_R x).
Proof.
  intros Hv. unfold masked. now rewrite token_log_ppx_finite, mask_Fin.
Qed.

Lemma Rsum_masked (f : list xreal * Z -> R) (l : list (list xreal * Z)) :
  Rsum (map (fun p => f p * mask_R (snd p)) l)
  = Rsum (map f (filter is_token l)).
Proof.
  induction l as [|p l IH]; [reflexivity|].
  cbn [map filter]. rewrite Rsum_cons, IH. unfold is_token, mask_R.
  destruct (Z.eqb (snd p) pad_id); cbn [negb map]; rewrite ?Rsum_cons; lra.
Qed.

Lemma Rsum_mask (l : list (list xreal * Z)) :
  Rsum (map (fun p => mask_R (snd p)) l) = INR (length (filter is_token l)).
Proof.
  induction l as [|p l IH]; [reflexivity|].
  cbn [map filter]. rewrite Rsum_cons, IH. unfold is_token, mask_R.
  destruct (Z.eqb (snd p) pad_id); cbn [negb length].
  - lra.
  - rewrite S_INR. lra.
Qed.

Lemma positions_finite
      (predictions : list (list (list xreal))) (targets : list (list Z)) :
  finite3 predictions ->
  Forall (fun p => finite_vec (fst p)) (positions predictions targets).
Proof.
  unfold positions. intros HF. revert targets.
  induction HF as [|row rest Hrow _ IH]; intros [|trow trest]; simpl;
    try constructor.
  apply Forall_app. split; [|apply IH].
  clear - Hrow. revert trow. induction Hrow as [|v row Hv _ IHr];
    intros [|x trow]; simpl; constructor; auto.
Qed.

(** [log_ppx] on aligned arrays whose per-position vectors are finite:
    minus the sum of the kept entries of the non-pad positions over the
    number of non-pad positions, by the division of [xreal]. *)
Lemma log_ppx_flat
      (predictions : list (list (list xreal))) (targets : list (list Z)) :
  aligned (last_dim predictions) predictions targets ->
  Forall (fun p => finite_vec (fst p)) (positions predictions targets) ->
  log_ppx predictions targets
  = Ok (neg (div (Fin (Rsum (map one_hot_R (tokens predictions targets))))
                 (Fin (INR (length (tokens predictions targets)))))).
Proof.
  intros HA HF. rewrite (log_ppx_aligned HA). unfold tokens.
  set (pos := positions predictions targets) in *.
  replace (map (fun p => masked (fst p) (snd p)) pos)
    with (map Fin (map (fun p => one_hot_R p * mask_R (snd p)) pos)).
  2:{ rewrite map_map. apply map_ext_in. intros [v x] Hin.
      rewrite Forall_forall in HF. symmetry. apply masked_finite.
      exact (HF _ Hin). }
  replace (map (fun p => mask (snd p)) pos)
    with (map Fin (map (fun p => mask_R (snd p)) pos)).
  2:{ rewrite map_map. apply map_ext. intros p. symmetry. apply mask_Fin. }
  rewrite !np_sum_Fin, Rsum_masked, Rsum_mask. reflexivity.
Qed.

Lemma masked_token_finite (v : list xreal) (x : Z) :
  XReal.is_finite (token_log_ppx v x) = true ->
  masked v x = Fin (token_R (v, x) * mask_R x).
Proof.
  unfold masked, token_R. simpl fst; simpl snd. rewrite mask_Fin.
  destruct (token_log_ppx v x); try discriminate. reflexivity.
Qed.

(** [log_ppx] on aligned arrays whose [total_log_ppx] entries are all
    finite. *)
Lemma log_ppx_token_finite
      (predictions : list (list (list xreal))) (targets : list (list Z)) :
  aligned (last_dim predictions) predictions targets ->
  Forall (fun p => XReal.is_finite (token_log_ppx (fst p) (snd p)) = true)
         (positions predictions targets) ->
  log_ppx predictions targets
  = Ok (neg (div (Fin (Rsum (map token_R (tokens predictions targets))))
                 (Fin (INR (length (tokens predictions targets)))))).
Proof.
  intros HA HF. rewrite (log_ppx_aligned HA). unfold tokens.
  set (pos := positions predictions targets) in *.
  replace (map (fun p => masked (fst p) (snd p)) pos)
    with (map Fin (map (fun p => token_R p * mask_R (snd p)) pos)).
  2:{ rewrite map_map. apply map_ext_in. intros [v x] Hin.
      rewrite Forall_forall in HF. symmetry. apply masked_token_finite.
      exact (HF _ Hin). }
  replace (map (fun p => mask (snd p)) pos)
    with (map Fin (map (fun p => mask_R (snd p)) pos)).
  2:{ rewrite map_map. apply map_ext. intros p. symmetry. apply mask_Fin. }
  rewrite !np_sum_Fin, Rsum_masked, Rsum_mask. reflexivity.
Qed.

Lemma neg_div_Fin (a b : R) :
  b <> 0 -> neg (div (Fin a) (Fin b)) = Fin (- (a / b)).
Proof.
  intros Hb. simpl. destruct (Req_EM_T b 0); [contradiction|reflexivity].
Qed.

Lemma div_zero_zero (a b : R) :
  a = 0 -> b = 0 -> div (Fin a) (Fin b) = NaN.
Proof.
  intros -> ->. simpl. destruct (Req_EM_T 0 0) as [_|N]; [|now elim N].
  unfold XReal.scale.
  destruct (total_order_T 0 0) as [[L|_]|L]; try reflexivity; lra.
Qed.

Lemma length_filter_snd {T : Type} (g : Z -> bool) (l : list (list T * Z)) :
  length (filter (fun p => g (snd p)) l) = length (filter g (map snd l)).
Proof.
  induction l as [|p l IH]; simpl; [reflexivity|].
  destruct (g (snd p)); simpl; now rewrite IH.
Qed.

Lemma length_tokens {T : Type} (n : nat)
      (predictions : list (list (list T))) (targets : list (list Z)) :
  aligned n predictions targets ->
  length (tokens predictions targets) = non_pad_count targets.
Proof.
  intros HA. unfold tokens, non_pad_count.
  rewrite <- (map_snd_positions HA).
  apply (length_filter_snd (fun x => negb (Z.eqb x pad_id))).
Qed.

Lemma positions_in_range {A : Type} (B T V : nat)
      (predictions : list (list (list A))) (targets : list (list Z)) :
  shape3 B T V predictions -> targets_in_range V targets ->
  Forall (fun p => in_range (snd p) (length (fst p)) = true)
         (positions predictions targets).
Proof.
  intros [_ HP] HT. unfold positions. revert targets HT.
  induction HP as [|row rest [_ Hrow] _ IH]; intros [|trow trest] HT; simpl;
    try constructor.
  inversion HT as [|? ? Htrow HT']; subst.
  apply Forall_app. split; [|now apply IH].
  clear - Hrow Htrow. revert trow Htrow.
  induction Hrow as [|v row Hv _ IHr]; intros [|x trow] Htrow; simpl;
    try constructor.
  - simpl. rewrite Hv. now inversion Htrow.
  - apply IHr. now inversion Htrow.
Qed.

Lemma one_hot_R_in_range (l : list (list xreal * Z)) :
  Forall (fun p => in_range (snd p) (length (fst p)) = true) l ->
  map one_hot_R l = map gather_R l.
Proof.
  intros HF. apply map_ext_in. intros p Hin.
  rewrite Forall_forall in HF. unfold one_hot_R. now rewrite (HF p Hin).
Qed.

Lemma Forall_filter {A : Type} (P : A -> Prop) (f : A -> bool) (l : list A) :
  Forall P l -> Forall P (filter f l).
Proof.
  intros HF. rewrite Forall_forall in *. intros x Hx.
  apply filter_In in Hx. apply HF. tauto.
Qed.

(** [compute] on arrays of shapes (B, T, V) and (B, T) with finite
    predictions, whatever the target ids are. *)
Lemma compute_finite (B T V : nat)
      (predictions : list (list (list xreal))) (targets : list (list Z)) :
  shape3 B T V predictions -> shape2 B T targets -> finite3 predictions ->
  let l := neg (div (Fin (Rsum (map one_hot_R (tokens predictions targets))))
                    (Fin (INR (non_pad_count targets)))) in
  compute predictions targets = Ok (l, np_exp l).
Proof.
  intros H3 H2 HF l. apply compute_of_log_ppx.
  pose proof (shapes_aligned H3 H2) as HA.
  rewrite (log_ppx_flat HA (positions_finite targets HF)).
  unfold l. now rewrite (length_tokens HA).
Qed.

(** [compute] on a valid batch with at least one non-pad token. *)
Lemma compute_valid (B T V : nat)
      (predictions : list (list (list xreal))) (targets : list (list Z)) :
  valid_batch B T V predictions targets ->
  (0 < non_pad_count targets)%nat ->
  compute predictions targets
  = Ok (Fin (mean_nll predictions targets),
        Fin (exp (mean_nll predictions targets))).
Proof.
  intros (H3 & H2 & HF & HR) Hn.
  rewrite (compute_finite H3 H2 HF). cbv zeta.
  rewrite neg_div_Fin.
  2:{ apply not_0_INR. lia. }
  rewrite one_hot_R_in_range.
  2:{ apply Forall_filter. eapply positions_in_range; eassumption. }
  reflexivity.
Qed.

(** ** The claims *)

(** C1, as amended. In exact arithmetic (the sums, the quotient and the
    exponential computed without rounding and without leaving the range
    of the floats, as they are on [xreal]): on a batch of shapes
    (B, T, V) and (B, T) with finite predictions and target ids in
    [0, V), pad id 0 and at least one non-pad target, [compute] returns
    as log-perplexity minus the sum, over the non-pad positions, of
    [predictions[b,t,targets[b,t]]], divided by the number of non-pad
    positions, and as perplexity its exponential. *)
Theorem C1_compute_masked_mean (B T V : nat)
        (predictions : list (list (list xreal))) (targets : list (list Z)) :
  valid_batch B T V predictions targets ->
  (0 < non_pad_count targets)%nat ->
  compute predictions targets
  = Ok (Fin (- (gather_total predictions targets
                / INR (non_pad_count targets))),
        Fin (exp (- (gather_total predictions targets
                     / INR (non_pad_count targets))))).
Proof. intros HV Hn. exact (compute_valid HV Hn). Qed.

Lemma C1_witness :
  valid_batch 1 3 4 sample_predictions sample_targets /\
  (0 < non_pad_count sample_targets)%nat /\
  compute sample_predictions sample_targets
  = Ok (Fin (- (gather_total sample_predictions sample_targets
                / INR (non_pad_count sample_targets))),
        Fin (exp (- (gather_total sample_predictions sample_targets
                     / INR (non_pad_count sample_targets))))).
Proof.
  assert (HV : valid_batch 1 3 4 sample_predictions sample_targets)
    by concrete.
  assert (Hn : (0 < non_pad_count sample_targets)%nat) by (vm_compute; lia).
  split; [exact HV|]. split; [exact Hn|].
  exact (C1_compute_masked_mean HV Hn).
Defined.

(** Arrays whose shapes disagree raise [ShapeMismatch]; an axis of size
    1 is broadcast, as NumPy does. *)
Example shapes_disagree :
  compute sample_predictions [[1; 2]]%Z = Raise ShapeMismatch /\
  compute sample_predictions [[1; 2; 0]; [1; 2; 0]]%Z
  = compute (sample_predictions ++ sample_predictions)
            [[1; 2; 0]; [1; 2; 0]]%Z.
Proof. split; reflexivity. Qed.

(** The scenario of the specification: count 2, total -3, log-perplexity
    1.5. *)
Example sample_compute :
  compute sample_predictions sample_targets
  = Ok (Fin (3 / 2), Fin (exp (3 / 2))).
Proof.
  assert (HV : valid_batch 1 3 4 sample_predictions sample_targets)
    by concrete.
  rewrite (compute_valid HV) by (vm_compute; lia).
  assert (E : mean_nll sample_predictions sample_targets = 3 / 2).
  { unfold mean_nll, gather_total. simpl. unfold gather_R. simpl. lra. }
  now rewrite E.
Qed.

(** C7. On a valid batch with exactly one non-pad token, of true-class
    log-probability [p], [compute] returns the log-perplexity [-p] and
    the perplexity [exp (-p)]. *)
Theorem C7_single_token (B T V : nat)
        (predictions : list (list (list xreal))) (targets : list (list Z))
        (v : list xreal) (x : Z) (p : R) :
  valid_batch B T V predictions targets ->
  tokens predictions targets = [(v, x)] ->
  nth (Z.to_nat x) v zero = Fin p ->
  compute predictions targets = Ok (Fin (- p), Fin (exp (- p))).
Proof.
  intros HV Htok Hp.
  assert (Hn : non_pad_count targets = 1%nat).
  { destruct HV as (H3 & H2 & _).
    rewrite <- (length_tokens (shapes_aligned H3 H2)). now rewrite Htok. }
  rewrite (compute_valid HV) by lia.
  assert (E : mean_nll predictions targets = - p).
  { unfold mean_nll, gather_total. rewrite Htok, Hn. simpl.
    unfold gather_R. simpl. change (@zero xreal _) with (Fin 0) in Hp.
    rewrite Hp. simpl. field. }
  now rewrite E.
Qed.

Lemma C7_witness :
  compute sample_predictions [[0; 2; 0]]%Z = Ok (Fin (- -2), Fin (exp (- -2))).
Proof.
  apply (@C7_single_token 1 3 4 sample_predictions [[0; 2; 0]]%Z
           [Fin (-6); Fin (-4); Fin (-2); Fin (-3)] 2%Z (-2)).
  - concrete.
  - reflexivity.
  - reflexivity.
Defined.

(** *** Batches of padding only *)

Lemma scale_zero (positive : bool) (r : R) :
  r = 0 -> XReal.scale positive r = NaN.
Proof.
  intros ->. unfold XReal.scale.
  destruct (total_order_T 0 0) as [[L|_]|L]; try reflexivity; lra.
Qed.

(** [compute] on arrays of shapes (B, T, V) and (B, T) whose targets are
    all the pad id: the quotient is 0/0 (or NaN/0). *)
Lemma compute_all_pad (B T V : nat)
      (predictions : list (list (list xreal))) (targets : list (list Z)) :
  shape3 B T V predictions -> shape2 B T targets ->
  Forall (Forall (fun x => x = pad_id)) targets ->
  compute predictions targets = Ok (NaN, NaN).
Proof.
  intros H3 H2 Hpad.
  change (compute predictions targets = Ok (NaN, np_exp NaN)).
  apply compute_of_log_ppx.
  apply (log_ppx_all_pad (fun a => a = NaN \/ a = Fin 0)).
  - now right.
  - intros a b [->| ->] [->| ->]; simpl; auto. right. f_equal. lra.
  - intros [r| | |]; simpl.
    + right. f_equal. lra.
    + left. apply scale_zero. lra.
    + left. apply scale_zero. lra.
    + now left.
  - simpl. f_equal. lra.
  - intros a [->| ->]; [reflexivity | now apply div_zero_zero].
  - reflexivity.
  - exact (shapes_aligned H3 H2).
  - exact Hpad.
Qed.

(** C3, as amended. On a batch in which every target is the pad id,
    [compute] raises nothing: the division is the floating-point one, and
    the result is the pair (NaN, NaN). *)
Theorem C3_all_pad_is_nan (B T V : nat)
        (predictions : list (list (list xreal))) (targets : list (list Z)) :
  shape3 B T V predictions -> shape2 B T targets ->
  Forall (Forall (fun x => x = pad_id)) targets ->
  compute predictions targets = Ok (NaN, NaN).
Proof. intros H3 H2 Hp. exact (compute_all_pad H3 H2 Hp). Qed.

Lemma C3_witness :
  compute sample_predictions pad_targets = Ok (NaN, NaN).
Proof.
  apply (@C3_all_pad_is_nan 1 3 4 sample_predictions pad_targets);
    concrete.
Defined.

(** C3, as stated, fails: every target of [pad_targets] is the pad id and
    [compute] does not end in [DivisionByZero]. *)
Lemma C3_counterexample :
  Forall (Forall (fun x => x = pad_id)) pad_targets /\
  valid_batch 1 3 4 sample_predictions pad_targets /\
  compute sample_predictions pad_targets = Ok (NaN, NaN) /\
  compute sample_predictions pad_targets <> Raise DivisionByZero.
Proof.
  assert (E : compute sample_predictions pad_targets = Ok (NaN, NaN))
    by (apply (@compute_all_pad 1 3 4); concrete).
  split; [concrete|]. split; [concrete|].
  split; [exact E | rewrite E; discriminate].
Qed.

(** C4, as amended. On a batch of shapes (B, T, V) and (B, T) with
    finite predictions, whatever the target ids are, [compute] raises
    nothing: the one-hot row of an id outside [0, V) is all zeros, so
    such a position adds 0 to the total ([one_hot_R]) and, when its id
    is not the pad id, 1 to the count. *)
Theorem C4_out_of_range_selects_nothing (B T V : nat)
        (predictions : list (list (list xreal))) (targets : list (list Z)) :
  shape3 B T V predictions -> shape2 B T targets -> finite3 predictions ->
  compute predictions targets
  = Ok (neg (div (Fin (Rsum (map one_hot_R (tokens predictions targets))))
                 (Fin (INR (non_pad_count targets)))),
        np_exp
          (neg (div (Fin (Rsum (map one_hot_R (tokens predictions targets))))
                    (Fin (INR (non_pad_count targets)))))).
Proof. intros H3 H2 HF. exact (compute_finite H3 H2 HF). Qed.

Lemma C4_witness :
  compute sample_predictions stray_targets
  = Ok (neg (div (Fin (Rsum (map one_hot_R
                               (tokens sample_predictions stray_targets))))
                 (Fin (INR (non_pad_count stray_targets)))),
        np_exp
          (neg (div (Fin (Rsum (map one_hot_R
                                  (tokens sample_predictions stray_targets))))
                    (Fin (INR (non_pad_count stray_targets)))))).
Proof.
  apply (@C4_out_of_range_selects_nothing 1 3 4); concrete.
Defined.

(** C4, as stated, fails: [stray_targets] holds the id 7, the vocabulary
    has 4 entries, and [compute] returns a result: total -1 over count
    2. *)
Lemma C4_counterexample :
  shape3 1 3 4 sample_predictions /\ shape2 1 3 stray_targets /\
  ~ targets_in_range 4 stray_targets /\
  compute sample_predictions stray_targets
  = Ok (Fin (1 / 2), Fin (exp (1 / 2))) /\
  compute sample_predictions stray_targets <> Raise IndexOutOfRange.
Proof.
  assert (E : compute sample_predictions stray_targets
              = Ok (Fin (1 / 2), Fin (exp (1 / 2)))).
  { rewrite (@compute_finite 1 3 4) by concrete. cbv zeta.
    rewrite neg_div_Fin by (apply not_0_INR; vm_compute; lia).
    assert (E : - (Rsum (map one_hot_R (tokens sample_predictions stray_targets))
                   / INR (non_pad_count stray_targets)) = 1 / 2).
    { simpl. unfold one_hot_R, gather_R. simpl. lra. }
    now rewrite E. }
  split; [concrete|]. split; [concrete|]. split.
  - intros H. inversion H as [|? ? Hrow _]; subst.
    inversion Hrow as [|? ? _ Hrow']; subst.
    inversion Hrow' as [|? ? H7 _]; subst. discriminate H7.
  - split; [exact E | rewrite E; discriminate].
Qed.

(** *** One-hot against direct gather *)

Lemma gather_entry_finite (v : list xreal) (x : Z) :
  finite_vec v -> in_range x (length v) = true ->
  nth (Z.to_nat x) v (Fin 0) = Fin (gather_R (v, x)).
Proof.
  intros Hv Hx. unfold in_range in Hx. apply andb_true_iff in Hx.
  destruct Hx as [H0 HV]. apply Z.leb_le in H0. apply Z.ltb_lt in HV.
  assert (Hin : In (nth (Z.to_nat x) v (Fin 0)) v) by (apply nth_In; lia).
  unfold finite_vec in Hv. rewrite Forall_forall in Hv.
  specialize (Hv _ Hin). unfold gather_R. simpl fst; simpl snd.
  destruct (nth (Z.to_nat x) v (Fin 0)); try discriminate. reflexivity.
Qed.

Lemma token_log_ppx_gather (v : list xreal) (x : Z) :
  finite_vec v -> in_range x (length v) = true ->
  token_log_ppx v x = nth (Z.to_nat x) v zero.
Proof.
  intros Hv Hx. change (@zero xreal _) with (Fin 0).
  rewrite token_log_ppx_finite, gather_entry_finite by assumption.
  unfold one_hot_R. simpl fst; simpl snd. now rewrite Hx.
Qed.

(** Position by position, a valid batch pairs a finite vector with an id
    that indexes it. *)
Lemma valid_batch_Forall2 (B T V : nat)
      (predictions : list (list (list xreal))) (targets : list (list Z)) :
  valid_batch B T V predictions targets ->
  Forall2 (Forall2 (fun v x => finite_vec v /\ in_range x (length v) = true))
          predictions targets.
Proof.
  intros ([HB H3] & [HB' H2] & HF & HR). subst B.
  revert targets HB' H2 HR.
  induction predictions as [|row rest IH]; intros [|trow trest] HB' H2 HR;
    simpl in HB'; try discriminate; constructor.
  - inversion H3 as [|? ? [HT HV] _]; subst.
    inversion H2 as [|? ? HT' _]; subst.
    inversion HF as [|? ? HFr _]; subst.
    inversion HR as [|? ? HRr _]; subst.
    clear - HV HT' HFr HRr. revert trow HT' HRr.
    induction row as [|v row IHr]; intros [|x trow] HT' HRr;
      simpl in HT'; try discriminate; constructor.
    + inversion HV; inversion HFr; inversion HRr; subst.
      split; [assumption|]. congruence.
    + inversion HV; inversion HFr; inversion HRr; subst.
      apply IHr; auto.
  - inversion H3; inversion H2; inversion HF; inversion HR; subst.
    apply IH; auto.
Qed.

Lemma gather_formulation (B T V : nat)
      (predictions : list (list (list xreal))) (targets : list (list Z)) :
  valid_batch B T V predictions targets ->
  total_log_ppx predictions targets
  = gather_total_log_ppx predictions targets.
Proof.
  intros HV. pose proof (valid_batch_Forall2 HV) as HF2.
  destruct HV as (H3 & H2 & _).
  rewrite (total_log_ppx_aligned (shapes_aligned H3 H2)).
  unfold gather_total_log_ppx. symmetry.
  apply zipM_ok.
  eapply Forall2_impl; [|exact HF2]. intros row trow Hrow. simpl in *.
  apply zipM_ok.
  eapply Forall2_impl; [|exact Hrow]. intros v x [Hv Hx]. simpl in *.
  unfold gather. rewrite Hx. f_equal. symmetry.
  now apply token_log_ppx_gather.
Qed.

Lemma compute_by_total {T : Type} `{Numeric T} `{Exponential T}
      (predictions : list (list (list T))) (targets : list (list Z)) :
  total_log_ppx predictions targets = gather_total_log_ppx predictions targets ->
  compute predictions targets = gather_compute predictions targets.
Proof.
  intros E. unfold compute, log_ppx, real_log_ppx, gather_compute.
  rewrite E. destruct (gather_total_log_ppx predictions targets); simpl;
    [|reflexivity].
  destruct (mul2 a (non_pad targets)); reflexivity.
Qed.

(** C2, as amended. On a batch of shapes (B, T, V) and (B, T) with
    finite predictions and target ids in [0, V), the one-hot product
    and sum holds at every position the value the direct gather
    [predictions[b,t,targets[b,t]]] reads, and the two formulations
    return the same pair. *)
Theorem C2_one_hot_is_gather (B T V : nat)
        (predictions : list (list (list xreal))) (targets : list (list Z)) :
  shape3 B T V predictions -> shape2 B T targets ->
  targets_in_range V targets -> finite3 predictions ->
  total_log_ppx predictions targets
  = gather_total_log_ppx predictions targets /\
  compute predictions targets = gather_compute predictions targets.
Proof.
  intros H3 H2 HR HF.
  assert (E : total_log_ppx predictions targets
              = gather_total_log_ppx predictions targets).
  { apply (@gather_formulation B T V).
    exact (conj H3 (conj H2 (conj HF HR))). }
  split; [exact E | exact (compute_by_total _ _ E)].
Qed.

Lemma C2_witness :
  total_log_ppx sample_predictions sample_targets
  = gather_total_log_ppx sample_predictions sample_targets /\
  compute sample_predictions sample_targets
  = gather_compute sample_predictions sample_targets.
Proof.
  apply (@C2_one_hot_is_gather 1 3 4); concrete.
Defined.

(** C2, as stated, fails without finiteness: next to a [-oo] entry the
    one-hot product holds [-oo * 0], a NaN, and the sum over the
    vocabulary is NaN where the gather reads -1. *)
Lemma C2_counterexample :
  shape3 1 1 2 inf_predictions /\ shape2 1 1 inf_targets /\
  targets_in_range 2 inf_targets /\
  total_log_ppx inf_predictions inf_targets = Ok [[NaN]] /\
  gather_total_log_ppx inf_predictions inf_targets = Ok [[Fin (-1)]] /\
  total_log_ppx inf_predictions inf_targets
  <> gather_total_log_ppx inf_predictions inf_targets /\
  compute inf_predictions inf_targets = Ok (NaN, NaN) /\
  gather_compute inf_predictions inf_targets = Ok (Fin 1, Fin (exp 1)).
Proof.
  assert (E : total_log_ppx inf_predictions inf_targets = Ok [[NaN]]).
  { rewrite (total_log_ppx_aligned (predictions := inf_predictions)
               (targets := inf_targets)) by concrete.
    simpl. unfold token_log_ppx, np_sum. simpl.
    now rewrite scale_zero. }
  assert (G : gather_total_log_ppx inf_predictions inf_targets
              = Ok [[Fin (-1)]]) by reflexivity.
  split; [concrete|]. split; [concrete|]. split; [concrete|].
  split; [exact E|]. split; [exact G|].
  split; [rewrite E, G; discriminate|]. split.
  - unfold compute, log_ppx, real_log_ppx. rewrite E. reflexivity.
  - unfold gather_compute. rewrite G. simpl.
    destruct (Req_EM_T (0 + (1 + - 0)) 0) as [H0|_]; [lra|].
    simpl.
    replace (- ((0 + -1 * (1 + - 0)) / (0 + (1 + - 0)))) with 1 by field.
    reflexivity.
Qed.

(** *** Reordering the sequences of a batch *)

Lemma filter_Permutation {A : Type} (f : A -> bool) (l l' : list A) :
  Permutation l l' -> Permutation (filter f l) (filter f l').
Proof.
  induction 1 as [|x l l' _ IH|x y l|l l' l'' _ IH1 _ IH2]; simpl.
  - constructor.
  - destruct (f x); [now constructor | exact IH].
  - destruct (f x), (f y); try reflexivity. constructor.
  - now transitivity (filter f l').
Qed.

Lemma Rsum_Permutation (l l' : list R) :
  Permutation l l' -> Rsum l = Rsum l'.
Proof.
  induction 1 as [|x l l' _ IH|x y l|l l' l'' _ IH1 _ IH2];
    rewrite ?Rsum_cons; lra.
Qed.

Lemma permute_rows_Forall {A : Type} (Q : list A -> Prop) (sigma : list nat)
      (a : list (list A)) :
  Permutation sigma (seq 0 (length a)) ->
  Forall Q a -> Forall Q (permute_rows sigma a).
Proof.
  intros HP HQ. unfold permute_rows. apply Forall_map.
  rewrite Forall_forall in *. intros i Hi.
  apply HQ, nth_In.
  apply (Permutation_in _ HP) in Hi. apply in_seq in Hi. lia.
Qed.

Lemma permute_rows_length {A : Type} (sigma : list nat) (a : list (list A)) :
  Permutation sigma (seq 0 (length a)) ->
  length (permute_rows sigma a) = length a.
Proof.
  intros HP. unfold permute_rows.
  now rewrite length_map, (Permutation_length HP), length_seq.
Qed.

(** C5, as amended. In exact arithmetic (the sums computed without
    rounding and without leaving the range of the floats, as they are on
    [xreal]): on a valid batch with at least one non-pad token, applying
    one permutation of the batch indices 0..B-1 to the rows of
    [predictions] and of [targets] leaves the pair returned by [compute]
    unchanged. *)
Theorem C5_batch_order_irrelevant (B T V : nat)
        (predictions : list (list (list xreal))) (targets : list (list Z))
        (sigma : list nat) :
  valid_batch B T V predictions targets ->
  (0 < non_pad_count targets)%nat ->
  Permutation sigma (seq 0 B) ->
  compute (permute_rows sigma predictions) (permute_rows sigma targets)
  = compute predictions targets.
Proof.
  intros ([HB H3] & [HB' H2] & HF & _) _ HP.
  assert (HPp : Permutation sigma (seq 0 (length predictions)))
    by now rewrite HB.
  assert (HPt : Permutation sigma (seq 0 (length targets)))
    by now rewrite HB'.
  assert (H3' : shape3 B T V (permute_rows sigma predictions)).
  { split; [now rewrite permute_rows_length|].
    now apply permute_rows_Forall. }
  assert (H2' : shape2 B T (permute_rows sigma targets)).
  { split; [now rewrite permute_rows_length|].
    now apply permute_rows_Forall. }
  assert (HF' : finite3 (permute_rows sigma predictions))
    by now apply permute_rows_Forall.
  assert (HPos : Permutation
                   (tokens (permute_rows sigma predictions)
                           (permute_rows sigma targets))
                   (tokens predictions targets)).
  { apply filter_Permutation, positions_permute_rows; [congruence|exact HPp]. }
  rewrite (compute_finite H3' H2' HF').
  rewrite (compute_finite (conj HB H3) (conj HB' H2) HF). cbv zeta.
  rewrite <- (length_tokens (shapes_aligned H3' H2')).
  rewrite <- (length_tokens (shapes_aligned (conj HB H3) (conj HB' H2))).
  rewrite (Permutation_length HPos).
  rewrite (Rsum_Permutation (Permutation_map one_hot_R HPos)).
  reflexivity.
Qed.

Lemma C5_witness :
  compute (permute_rows [1; 2; 0]%nat
             (sample_predictions ++ sample_worse ++ sample_other_classes))
          (permute_rows [1; 2; 0]%nat
             (sample_targets ++ [[1; 0; 2]]%Z ++ [[3; 3; 0]]%Z))
  = compute (sample_predictions ++ sample_worse ++ sample_other_classes)
            (sample_targets ++ [[1; 0; 2]]%Z ++ [[3; 3; 0]]%Z).
Proof.
  apply (@C5_batch_order_irrelevant 3 3 4).
  - concrete.
  - vm_compute. lia.
  - simpl. apply Permutation_sym.
    apply (@perm_trans _ _ [1; 0; 2]%nat); [apply perm_swap|].
    apply perm_skip, perm_swap.
Defined.

(** *** Two batches with the same targets *)

Lemma Forall2_with_Forall {A : Type} (R : A -> A -> Prop) (P Q : A -> Prop)
      (l l' : list A) :
  Forall2 R l l' -> Forall P l -> Forall Q l' ->
  Forall2 (fun x y => R x y /\ P x /\ Q y) l l'.
Proof.
  induction 1 as [|x y l l' Hxy _ IH]; intros HP HQ; constructor.
  - inversion HP; inversion HQ; subst. auto.
  - inversion HP; inversion HQ; subst. auto.
Qed.

Lemma filter_tokens_agree (l l' : list (list xreal * Z)) :
  Forall2 (fun p q => snd p = snd q /\ (is_token p = true -> fst p = fst q))
          l l' ->
  filter is_token l = filter is_token l'.
Proof.
  induction 1 as [|[v x] [v' x'] l l' [Hs Hf] _ IH]; simpl in *;
    [reflexivity|].
  subst x'. change (is_token (v', x)) with (is_token (v, x)).
  destruct (is_token (v, x)) eqn:E; [|exact IH].
  rewrite (Hf eq_refl), IH. reflexivity.
Qed.

Lemma map_tokens_agree (f : list xreal * Z -> R) (l l' : list (list xreal * Z)) :
  Forall2 (fun p q => snd p = snd q /\ f p = f q) l l' ->
  map f (filter is_token l) = map f (filter is_token l').
Proof.
  induction 1 as [|[v x] [v' x'] l l' [Hs Hf] _ IH]; simpl in *;
    [reflexivity|].
  subst x'. change (is_token (v', x)) with (is_token (v, x)).
  destruct (is_token (v, x)); [|exact IH].
  simpl. now rewrite Hf, IH.
Qed.

Lemma Rsum_tokens_le (f : list xreal * Z -> R) (l l' : list (list xreal * Z)) :
  Forall2 (fun p q => snd p = snd q /\ (is_token p = true -> f q <= f p))
          l l' ->
  Rsum (map f (filter is_token l')) <= Rsum (map f (filter is_token l)).
Proof.
  induction 1 as [|[v x] [v' x'] l l' [Hs Hf] _ IH]; simpl in *;
    [lra|].
  subst x'. change (is_token (v', x)) with (is_token (v, x)).
  destruct (is_token (v, x)); [|exact IH].
  cbn [map]. rewrite !Rsum_cons. specialize (Hf eq_refl). lra.
Qed.

(** C9. Two valid batches with the same targets and at least one
    non-pad token, whose predictions agree at every non-pad position,
    get the same pair from [compute]: the (finite) predictions at the
    pad positions have no influence. *)
Theorem C9_pad_positions_irrelevant (B T V : nat)
        (p p' : list (list (list xreal))) (targets : list (list Z)) :
  valid_batch B T V p targets -> valid_batch B T V p' targets ->
  (0 < non_pad_count targets)%nat ->
  (forall b t, (b < B)%nat -> (t < T)%nat ->
               target_at targets b t <> pad_id ->
               vec_at p b t = vec_at p' b t) ->
  compute p targets = compute p' targets.
Proof.
  intros (H3 & H2 & HF & _) (H3' & _ & HF' & _) _ Hagree.
  rewrite (compute_finite H3 H2 HF), (compute_finite H3' H2 HF'). cbv zeta.
  assert (E : tokens p targets = tokens p' targets).
  { apply filter_tokens_agree.
    apply (positions_rel _ H3 H3' H2). intros b t Hb Ht. simpl.
    split; [reflexivity|]. unfold is_token. simpl snd. intros Htok.
    apply Hagree; try assumption.
    intros Hpad. rewrite Hpad in Htok. discriminate. }
  now rewrite E.
Qed.

(** C10. Two valid batches with the same targets and at least one
    non-pad token, whose predictions agree at every position in the
    entry of the true token, get the same pair from [compute]: the
    entries [predictions[b,t,v]] with [v <> targets[b,t]] have no
    influence. *)
Theorem C10_other_classes_irrelevant (B T V : nat)
        (p p' : list (list (list xreal))) (targets : list (list Z)) :
  valid_batch B T V p targets -> valid_batch B T V p' targets ->
  (0 < non_pad_count targets)%nat ->
  (forall b t, (b < B)%nat -> (t < T)%nat ->
               true_log_prob p targets b t = true_log_prob p' targets b t) ->
  compute p targets = compute p' targets.
Proof.
  intros HV HV' Hn Hagree.
  rewrite (compute_valid HV Hn), (compute_valid HV' Hn).
  assert (E : mean_nll p targets = mean_nll p' targets).
  { unfold mean_nll, gather_total, tokens. do 3 f_equal.
    apply map_tokens_agree.
    destruct HV as (H3 & H2 & _), HV' as (H3' & _).
    apply (positions_rel _ H3 H3' H2). intros b t Hb Ht. simpl.
    split; [reflexivity|]. unfold gather_R. simpl fst; simpl snd.
    f_equal. exact (Hagree b t Hb Ht). }
  now rewrite E.
Qed.

(** C6. Two valid batches with the same targets and at least one
    non-pad token: if at every non-pad position the true-class
    log-probability of the first is at least that of the second, then
    the log-perplexity of the first is at most that of the second, and
    so is its perplexity. *)
Theorem C6_monotone (B T V : nat)
        (p p' : list (list (list xreal))) (targets : list (list Z)) :
  valid_batch B T V p targets -> valid_batch B T V p' targets ->
  (0 < non_pad_count targets)%nat ->
  (forall b t, (b < B)%nat -> (t < T)%nat ->
               target_at targets b t <> pad_id ->
               XReal.xle (true_log_prob p' targets b t)
                         (true_log_prob p targets b t)) ->
  exists l pp l' pp',
    compute p targets = Ok (l, pp) /\
    compute p' targets = Ok (l', pp') /\
    XReal.xle l l' /\ XReal.xle pp pp'.
Proof.
  intros HV HV' Hn Hge.
  exists (Fin (mean_nll p targets)), (Fin (exp (mean_nll p targets))),
         (Fin (mean_nll p' targets)), (Fin (exp (mean_nll p' targets))).
  split; [exact (compute_valid HV Hn)|].
  split; [exact (compute_valid HV' Hn)|].
  assert (Hle : mean_nll p targets <= mean_nll p' targets).
  { unfold mean_nll, gather_total, tokens.
    assert (Hpos : 0 < INR (non_pad_count targets)) by (apply lt_0_INR; lia).
    assert (Hs : Rsum (map gather_R (filter is_token (positions p' targets)))
                 <= Rsum (map gather_R (filter is_token (positions p targets)))).
    { apply Rsum_tokens_le.
      destruct HV as (H3 & H2 & HF & HR), HV' as (H3' & _ & HF' & _).
      pose proof (positions_finite targets HF) as F1.
      pose proof (positions_finite targets HF') as F2.
      pose proof (positions_in_range H3 HR) as R1.
      pose proof (positions_in_range H3' HR) as R2.
      assert (HR2 : Forall2 (fun a b : list xreal * Z =>
                      snd a = snd b /\
                      (is_token a = true ->
                       XReal.xle (nth (Z.to_nat (snd b)) (fst b) zero)
                                 (nth (Z.to_nat (snd a)) (fst a) zero)))
                    (positions p targets) (positions p' targets)).
      { apply (positions_rel _ H3 H3' H2). intros b t Hb Ht. simpl.
        split; [reflexivity|]. unfold is_token. simpl snd. intros Htok.
        apply Hge; try assumption.
        intros Hpad. rewrite Hpad in Htok. discriminate. }
      pose proof (Forall2_with_Forall
                    (Forall2_with_Forall HR2 F1 F2) R1 R2) as HAll.
      eapply Forall2_impl; [|exact HAll].
      intros [v x] [v' x'] [[[Hs Hx] [Fv Fv']] [Rv Rv']]. simpl in *.
      split; [exact Hs|]. intros Htok. specialize (Hx Htok).
      rewrite (@gather_entry_finite v x Fv Rv) in Hx.
      rewrite (@gather_entry_finite v' x' Fv' Rv') in Hx. exact Hx. }
    apply Ropp_le_contravar. unfold Rdiv.
    apply Rmult_le_compat_r; [|exact Hs].
    left. now apply Rinv_0_lt_compat. }
  split; [exact Hle|]. simpl.
  destruct Hle as [Hlt|Heq].
  - left. now apply exp_increasing.
  - right. now rewrite Heq.
Qed.

Lemma C9_witness :
  compute sample_predictions sample_targets
  = compute sample_repadded sample_targets.
Proof.
  apply (@C9_pad_positions_irrelevant 1 3 4).
  - concrete.
  - concrete.
  - vm_compute. lia.
  - sample_position b t Hb Ht; intros Hpad.
    + reflexivity.
    + reflexivity.
    + exfalso. apply Hpad. reflexivity.
Defined.

Lemma C10_witness :
  compute sample_predictions sample_targets
  = compute sample_other_classes sample_targets.
Proof.
  apply (@C10_other_classes_irrelevant 1 3 4).
  - concrete.
  - concrete.
  - vm_compute. lia.
  - sample_position b t Hb Ht; reflexivity.
Defined.

Lemma C6_witness :
  exists l pp l' pp',
    compute sample_predictions sample_targets = Ok (l, pp) /\
    compute sample_worse sample_targets = Ok (l', pp') /\
    XReal.xle l l' /\ XReal.xle pp pp'.
Proof.
  apply (@C6_monotone 1 3 4).
  - concrete.
  - concrete.
  - vm_compute. lia.
  - sample_position b t Hb Ht; intros Hpad.
    + simpl. lra.
    + simpl. lra.
    + exfalso. apply Hpad. reflexivity.
Defined.

(** *** Finiteness of the result *)

Lemma Forall_positions_of_total
      (predictions : list (list (list xreal))) (targets : list (list Z))
      (t : list (list xreal)) :
  aligned (last_dim predictions) predictions targets ->
  total_log_ppx predictions targets = Ok t ->
  Forall (Forall (fun a => XReal.is_finite a = true)) t ->
  Forall (fun p => XReal.is_finite (token_log_ppx (fst p) (snd p)) = true)
         (positions predictions targets).
Proof.
  intros HA Ht HF. rewrite (total_log_ppx_aligned HA) in Ht.
  injection Ht as <-.
  apply Forall_concat in HF. rewrite concat_zip_with2 in HF.
  now apply Forall_map in HF.
Qed.

Lemma compute_token_finite (B T V : nat)
      (predictions : list (list (list xreal))) (targets : list (list Z))
      (t : list (list xreal)) :
  shape3 B T V predictions -> shape2 B T targets ->
  (0 < non_pad_count targets)%nat ->
  total_log_ppx predictions targets = Ok t ->
  Forall (Forall (fun a => XReal.is_finite a = true)) t ->
  exists l : R, compute predictions targets = Ok (Fin l, Fin (exp l)).
Proof.
  intros H3 H2 Hn Ht HF.
  pose proof (shapes_aligned H3 H2) as HA.
  pose proof (Forall_positions_of_total HA Ht HF) as HP.
  exists (- (Rsum (map token_R (tokens predictions targets))
             / INR (non_pad_count targets))).
  assert (E : log_ppx predictions targets
              = Ok (Fin (- (Rsum (map token_R (tokens predictions targets))
                            / INR (non_pad_count targets))))).
  { rewrite (log_ppx_token_finite HA HP), (length_tokens HA).
    now rewrite neg_div_Fin by (apply not_0_INR; lia). }
  now rewrite (compute_of_log_ppx _ _ E).
Qed.

(** C8, as amended. On a batch with at least one non-pad token, whenever
    every entry of [total_log_ppx] (the per-token log-probabilities, at
    pad positions too) is finite, the log-perplexity and the perplexity
    are finite and the perplexity is at least 0.  Finite values are
    exact reals here: the statement leaves out the overflow of the
    binary32 range (see [binary32_sum_overflows]). *)
Theorem C8_finite_result (B T V : nat)
        (predictions : list (list (list xreal))) (targets : list (list Z))
        (t : list (list xreal)) :
  shape3 B T V predictions -> shape2 B T targets ->
  (0 < non_pad_count targets)%nat ->
  total_log_ppx predictions targets = Ok t ->
  Forall (Forall (fun a => XReal.is_finite a = true)) t ->
  exists l pp,
    compute predictions targets = Ok (l, pp) /\
    XReal.is_finite l = true /\ XReal.is_finite pp = true /\
    XReal.xle (Fin 0) pp.
Proof.
  intros H3 H2 Hn Ht HF.
  destruct (compute_token_finite H3 H2 Hn Ht HF) as [l E].
  exists (Fin l), (Fin (exp l)). repeat split; try assumption.
  simpl. left. apply exp_pos.
Qed.

Lemma C8_witness :
  exists l pp,
    compute sample_predictions sample_targets = Ok (l, pp) /\
    XReal.is_finite l = true /\ XReal.is_finite pp = true /\
    XReal.xle (Fin 0) pp.
Proof.
  eapply (@C8_finite_result 1 3 4 sample_predictions sample_targets).
  - concrete.
  - concrete.
  - vm_compute. lia.
  - reflexivity.
  - concrete.
Defined.

(** C8, as stated, fails: on the batch of padding only [compute] returns
    a pair, every entry of [total_log_ppx] is finite, and the pair is
    (NaN, NaN). *)
Lemma C8_counterexample :
  (exists t, total_log_ppx sample_predictions pad_targets = Ok t /\
             Forall (Forall (fun a => XReal.is_finite a = true)) t) /\
  compute sample_predictions pad_targets = Ok (NaN, NaN) /\
  XReal.is_finite NaN = false.
Proof.
  split; [eexists; split; [reflexivity | concrete]|].
  split; [apply (@compute_all_pad 1 3 4); concrete | reflexivity].
Qed.

(** ** The same cells in binary32 *)

(** Two finite per-token log-probabilities of about -2.98e38 each: their
    binary32 sum leaves the range, and the log-perplexity is +oo. *)
Example binary32_sum_overflows :
  valid_binary Binary32.prec Binary32.emax f32_huge = true /\
  Binary32.is_finite f32_huge = true /\
  total_log_ppx f32_predictions [[2; 2]]%Z = Ok [[f32_huge; f32_huge]] /\
  log_ppx f32_predictions [[2; 2]]%Z = Ok (S754_infinity false).
Proof. vm_compute. repeat split. Qed.

(** On every binary32 batch of shapes (B, T, V) and (B, T) whose targets
    are all the pad id, the log-perplexity is the NaN of 0/0. *)
Lemma binary32_all_pad_is_nan (B T V : nat)
      (predictions : list (list (list Binary32.float32)))
      (targets : list (list Z)) :
  shape3 B T V predictions -> shape2 B T targets ->
  Forall (Forall (fun x => x = pad_id)) targets ->
  log_ppx predictions targets = Ok S754_nan.
Proof.
  intros H3 H2 Hpad.
  apply (log_ppx_all_pad
           (fun a : Binary32.float32 =>
              match a with
              | S754_zero _ | S754_nan => True
              | _ => False
              end)).
  - exact I.
  - intros [[|]|?| |? ? ?] [[|]|?| |? ? ?] Ha Hb; try contradiction; exact I.
  - intros [[|]|[|]| |[|] ? ?]; exact I.
  - reflexivity.
  - intros [[|]|?| |? ? ?] Ha; try contradiction; reflexivity.
  - reflexivity.
  - exact (shapes_aligned H3 H2).
  - exact Hpad.
Qed.

(** A batch of padding only: 0/0, a NaN, and no error. *)
Example binary32_all_pad :
  log_ppx f32_predictions [[0; 0]]%Z = Ok S754_nan.
Proof. vm_compute. reflexivity. Qed.

(** The id 7 in a vocabulary of 3 entries selects nothing and counts as
    a token: total -1 over count 2, log-perplexity 0.5. *)
Example binary32_stray_id :
  log_ppx f32_predictions [[1; 7]]%Z = Ok (S754_finite false 8388608 (-24)).
Proof. vm_compute. reflexivity. Qed.

(** [-oo * 0] is a NaN: the one-hot sum is NaN where the true class
    holds -1. *)
Example binary32_inf_times_zero :
  total_log_ppx f32_inf_predictions [[1]]%Z = Ok [[S754_nan]] /\
  gather_total_log_ppx f32_inf_predictions [[1]]%Z = Ok [[f32_minus_one]].
Proof. vm_compute. repeat split. Qed.

(** C1, as stated, fails in binary32.  A batch of shape (1, 2, 3) with
    finite entries and two tokens, both of true-class entry [f32_huge]
    (about -2.98e38): minus the sum over the count is the binary32
    number [f32_plus_huge], but the sum of the two entries leaves the
    binary32 range (there is one way only to add two terms) and the
    log-perplexity is +oo, whatever the exponential is. *)
Lemma C1_counterexample :
  valid_batch 1 2 3 (f32_value3 f32_predictions) [[2; 2]]%Z /\
  f32_valid3 f32_predictions /\
  (0 < non_pad_count [[2; 2]]%Z)%nat /\
  map f32_gather (tokens f32_predictions [[2; 2]]%Z) = [f32_huge; f32_huge] /\
  compute (f32_value3 f32_predictions) [[2; 2]]%Z
  = Ok (f32_value f32_plus_huge, np_exp (f32_value f32_plus_huge)) /\
  f32_finite f32_plus_huge /\
  (forall E : Exponential Binary32.float32,
     @compute _ _ E f32_predictions [[2; 2]]%Z
     = Ok (S754_infinity false, np_exp (S754_infinity false))) /\
  f32_value (S754_infinity false) <> f32_value f32_plus_huge.
Proof.
  assert (HV : valid_batch 1 2 3 (f32_value3 f32_predictions) [[2; 2]]%Z)
    by concrete.
  split; [exact HV|]. split; [concrete|]. split; [vm_compute; lia|].
  split; [reflexivity|]. split.
  - rewrite (compute_valid HV) by (vm_compute; lia).
    assert (E : mean_nll (f32_value3 f32_predictions) [[2; 2]]%Z
                = (IZR 14680064 * powerRZ 2 104)%R).
    { change (- (Rsum [- IZR 14680064 * powerRZ 2 104;
                       - IZR 14680064 * powerRZ 2 104] / INR 2)
              = IZR 14680064 * powerRZ 2 104)%R.
      unfold Rsum. cbn [fold_right INR]. field. }
    now rewrite E.
  - split; [split; reflexivity|]. split; [|discriminate].
    intros E. apply compute_of_log_ppx. vm_compute. reflexivity.
Qed.

(** C5, as stated, fails in binary32: the order of the rows can decide
    whether a partial sum leaves the range.  Three sequences of one
    token each, of true-class entries h, h and -h with h = [f32_huge]
    (about -2.98e38).  Whichever two of the three terms a reduction adds
    first, it adds the two h for one of the three cyclic orders of the
    rows, and h + h is -oo; for the other two orders it adds h and -h
    first and the sum is h.  So the three orders cannot all give the
    same log-perplexity: one gives +oo, the others a finite number. *)
Lemma C5_counterexample :
  shape3 3 1 2 f32_swing /\ shape2 3 1 f32_row_targets /\
  f32_valid3 f32_swing /\ targets_in_range 2 f32_row_targets /\
  (0 < non_pad_count f32_row_targets)%nat /\
  Permutation [1; 2; 0]%nat (seq 0 3) /\
  Permutation [2; 0; 1]%nat (seq 0 3) /\
  ~ (log_ppx (permute_rows [1; 2; 0]%nat f32_swing)
             (permute_rows [1; 2; 0]%nat f32_row_targets)
     = log_ppx f32_swing f32_row_targets /\
     log_ppx (permute_rows [2; 0; 1]%nat f32_swing)
             (permute_rows [2; 0; 1]%nat f32_row_targets)
     = log_ppx f32_swing f32_row_targets) /\
  add (add f32_huge f32_huge) f32_plus_huge = S754_infinity true /\
  add f32_plus_huge (add f32_huge f32_huge) = S754_infinity true /\
  add (add f32_huge f32_plus_huge) f32_huge = f32_huge /\
  add (add f32_plus_huge f32_huge) f32_huge = f32_huge /\
  add f32_huge (add f32_huge f32_plus_huge) = f32_huge /\
  add f32_huge (add f32_plus_huge f32_huge) = f32_huge.
Proof.
  split; [concrete|]. split; [concrete|]. split; [concrete|].
  split; [concrete|]. split; [vm_compute; lia|]. split.
  { simpl. apply Permutation_sym.
    apply (@perm_trans _ _ [1; 0; 2]%nat); [apply perm_swap|].
    apply perm_skip, perm_swap. }
  split.
  { simpl. apply (@perm_trans _ _ [0; 2; 1]%nat); [apply perm_swap|].
    apply perm_skip, perm_swap. }
  split; [vm_compute; intros [E _]; discriminate E|].
  vm_compute. repeat split.
Qed.

(** Rounding in binary32: three tokens that all give their true class
    the log-probability c = -11184814 * 2^-24.  There is one way only
    to add three equal terms, (c + c) + c; the rounded sum over 3 is
    11184813 * 2^-24, one unit in the last place below -c. *)
Example binary32_mean_is_rounded :
  log_ppx f32_thirds [[1; 1; 1]]%Z = Ok (S754_finite false 11184813 (-24)) /\
  neg f32_two_thirds = S754_finite false 11184814 (-24) /\
  div (add (add f32_two_thirds f32_two_thirds) f32_two_thirds) (Binary32.of_Z 3)
  = S754_finite true 11184813 (-24).
Proof. vm_compute. repeat split. Qed.

(** Rounding alone already makes a binary32 sum depend on the order of
    its terms, in the last bit: with -0.1, -0.3 and -1.1, from the left
    or from the right, moving the first term to the end changes the
    rounded sum.  The specification accepts such bit-level
    differences. *)
Example binary32_sum_order :
  add (add f32_tenth f32_three_tenths) f32_eleven_tenths
  <> add (add f32_three_tenths f32_eleven_tenths) f32_tenth /\
  add f32_tenth (add f32_three_tenths f32_eleven_tenths)
  <> add f32_three_tenths (add f32_eleven_tenths f32_tenth).
Proof. vm_compute. split; discriminate. Qed.

(** *** Arithmetic of binary32 numbers *)

Lemma binary32_same_add (a a' b b' : Binary32.float32) :
  Binary32.same_number a a' -> Binary32.same_number b b' ->
  Binary32.same_number (add a b) (add a' b').
Proof.
  intros [->|[Za Za']] [->|[Zb Zb']].
  - now left.
  - destruct b as [sb| | |], b' as [sb'| | |]; try discriminate.
    destruct a' as [[|]|[|]| |sa ma ea], sb, sb'; simpl;
      (now left) || (right; split; reflexivity).
  - destruct a as [sa| | |], a' as [sa'| | |]; try discriminate.
    destruct b' as [[|]|[|]| |sb mb eb], sa, sa'; simpl;
      (now left) || (right; split; reflexivity).
  - destruct a as [[|]| | |], a' as [[|]| | |]; try discriminate;
      destruct b as [[|]| | |], b' as [[|]| | |]; try discriminate;
      right; split; reflexivity.
Qed.

Lemma binary32_same_mul (a a' b : Binary32.float32) :
  Binary32.same_number a a' -> Binary32.same_number (mul a b) (mul a' b).
Proof.
  intros [->|[Za Za']]; [now left|].
  destruct a as [sa| | |], a' as [sa'| | |]; try discriminate.
  destruct b as [sb|sb| |sb mb eb]; simpl;
    (now left) || (right; split; reflexivity).
Qed.

Lemma binary32_same_div (a a' b : Binary32.float32) :
  Binary32.same_number a a' -> Binary32.same_number (div a b) (div a' b).
Proof.
  intros [->|[Za Za']]; [now left|].
  destruct a as [sa| | |], a' as [sa'| | |]; try discriminate.
  destruct b as [sb|sb| |sb mb eb]; simpl;
    (now left) || (right; split; reflexivity).
Qed.

Lemma binary32_same_neg (a a' : Binary32.float32) :
  Binary32.same_number a a' -> Binary32.same_number (neg a) (neg a').
Proof.
  intros [->|[Za Za']]; [now left|].
  destruct a as [sa| | |], a' as [sa'| | |]; try discriminate.
  right; split; reflexivity.
Qed.

Lemma binary32_mul_zero (a b z : Binary32.float32) :
  Binary32.is_zero z = true ->
  Binary32.is_finite a = true -> Binary32.is_finite b = true ->
  Binary32.same_number (mul a z) (mul b z).
Proof.
  destruct z as [sz| | |]; try discriminate. intros _ Fa Fb.
  destruct a as [sa| | |sa ma ea], b as [sb| | |sb mb eb];
    try discriminate; right; split; reflexivity.
Qed.

(** Multiplying by 1.0 is exact. *)
Lemma binary32_mul_one_finite (s : bool) (m : positive) (e : Z) :
  bounded Binary32.prec Binary32.emax m e = true ->
  mul (S754_finite s m e) one = S754_finite s m e.
Proof.
  intros Hb. unfold bounded, canonical_mantissa in Hb.
  apply andb_prop in Hb. destruct Hb as [Hc He].
  apply Z.eqb_eq in Hc. unfold Binary32.prec, Binary32.emax in *.
  change (SFmul 24 128 (S754_finite s m e) (S754_finite false 8388608 (-23))
          = S754_finite s m e).
  unfold SFmul. rewrite Pos.mul_comm.
  unfold binary_round_aux, shr_fexp.
  cbn [Pos.mul Zdigits2 digits2_pos shr_record_of_loc].
  match goal with
  | |- context [fexp 24 128 (?a + (e + -23))%Z] =>
      replace (a + (e + -23))%Z with (Z.pos (digits2_pos m) + e)%Z by lia
  end.
  rewrite Hc.
  replace (e - (e + -23))%Z with 23%Z by lia.
  cbn [shr iter_pos shr_1 orb shr_m loc_of_shr_record round_nearest_even
       Zdigits2].
  replace (e + -23 + 23)%Z with e by lia.
  rewrite Hc, Z.sub_diag. cbn [shr shr_m].
  rewrite He. now rewrite xorb_false_r.
Qed.

Lemma binary32_mul_one (a : Binary32.float32) :
  f32_finite a -> mul a one = a.
Proof.
  intros [Fa Va]. destruct a as [[|]| | |s m e]; try discriminate.
  - reflexivity.
  - reflexivity.
  - now apply binary32_mul_one_finite.
Qed.

Lemma div_eucl_exact (q b : Z) :
  (b <> 0)%Z -> Z.div_eucl (q * b) b = (q, 0%Z).
Proof.
  intros Hb. pose proof (Z.div_mul q b Hb) as Hq.
  pose proof (Z.mod_mul q b Hb) as Hr.
  unfold Z.modulo, Z.div in *.
  destruct (Z.div_eucl (q * b) b) as [q' r']. simpl in *. now subst.
Qed.

(** Dividing by 1.0 is exact. *)
Lemma binary32_div_one_finite (s : bool) (m : positive) (e : Z) :
  bounded Binary32.prec Binary32.emax m e = true ->
  div (S754_finite s m e) one = S754_finite s m e.
Proof.
  intros Hb. unfold bounded, canonical_mantissa in Hb.
  apply andb_prop in Hb. destruct Hb as [Hc He].
  apply Z.eqb_eq in Hc. unfold Binary32.prec, Binary32.emax in *.
  change (SFdiv 24 128 (S754_finite s m e) (S754_finite false 8388608 (-23))
          = S754_finite s m e).
  unfold SFdiv, SFdiv_core_binary.
  cbn [Zdigits2 digits2_pos Pos.succ].
  unfold fexp, emin in *. change (3 - 128 - 24)%Z with (-149)%Z in *.
  destruct (Z.eq_dec e (-149)) as [->|Hne].
  - replace (Z.min (Z.max (Z.pos (digits2_pos m) + -149 - (24 + -23) - 24)
                          (-149)) (-149 - -23))
      with (-149)%Z by lia.
    change (-149 - -23 - -149)%Z with 23%Z. cbv iota.
    replace (Z.shiftl (Z.pos m) 23) with (Z.pos m * 8388608)%Z
      by (rewrite Z.shiftl_mul_pow2 by lia; reflexivity).
    rewrite div_eucl_exact by lia.
    change (new_location 8388608 0) with loc_Exact.
    unfold binary_round_aux, shr_fexp, fexp, emin.
    cbn [Zdigits2 shr_record_of_loc].
    change (3 - 128 - 24)%Z with (-149)%Z.
    rewrite Hc. change (-149 - -149)%Z with 0%Z.
    cbn [shr shr_m loc_of_shr_record round_nearest_even Zdigits2].
    rewrite Hc. change (-149 - -149)%Z with 0%Z. cbn [shr shr_m].
    rewrite He. now rewrite xorb_false_r.
  - assert (Hd : Z.pos (digits2_pos m) = 24%Z) by lia.
    replace (Z.min (Z.max (Z.pos (digits2_pos m) + e - (24 + -23) - 24)
                          (-149)) (e - -23))
      with (e - 1)%Z by lia.
    replace (e - -23 - (e - 1))%Z with 24%Z by lia. cbv iota.
    replace (Z.shiftl (Z.pos m) 24) with (Z.pos m~0 * 8388608)%Z
      by (rewrite Z.shiftl_mul_pow2 by lia;
          change (2 ^ 24)%Z with 16777216%Z; lia).
    rewrite div_eucl_exact by lia.
    change (new_location 8388608 0) with loc_Exact.
    unfold binary_round_aux, shr_fexp, fexp, emin.
    cbn [Zdigits2 digits2_pos shr_record_of_loc].
    change (3 - 128 - 24)%Z with (-149)%Z.
    replace (Z.max (Z.pos (Pos.succ (digits2_pos m)) + (e - 1) - 24) (-149)
             - (e - 1))%Z
      with 1%Z by lia.
    cbn [shr iter_pos shr_1 orb shr_m loc_of_shr_record round_nearest_even
         Zdigits2].
    replace (e - 1 + 1)%Z with e by lia.
    rewrite Hc, Z.sub_diag. cbn [shr shr_m].
    rewrite He. now rewrite xorb_false_r.
Qed.

Lemma binary32_div_one (a : Binary32.float32) :
  f32_finite a -> div a one = a.
Proof.
  intros [Fa Va]. destruct a as [[|]| | |s m e]; try discriminate.
  - reflexivity.
  - reflexivity.
  - now apply binary32_div_one_finite.
Qed.

(** Rounding keeps the sign. *)
Lemma binary32_round_sign (sx : bool) (mx ex : Z) (lx : location) :
  match binary_round_aux Binary32.prec Binary32.emax sx mx ex lx with
  | S754_zero s | S754_infinity s | S754_finite s _ _ => s = sx
  | S754_nan => True
  end.
Proof.
  unfold binary_round_aux.
  destruct (shr_fexp _ _ mx ex lx) as [mrs' e'].
  destruct (shr_fexp _ _ _ e' loc_Exact) as [mrs'' e''].
  destruct (shr_m mrs''); [reflexivity| |exact I].
  destruct (Z.leb e'' _); reflexivity.
Qed.

Lemma binary32_add_one_sign_clear (a : Binary32.float32) :
  Binary32.sign_clear a = true -> Binary32.sign_clear (add a one) = true.
Proof.
  destruct a as [[|]|[|]| |[|] m e]; try discriminate; try reflexivity.
  intros _.
  change (Binary32.sign_clear
            (SFadd 24 128 (S754_finite false m e)
                          (S754_finite false 8388608 (-23))) = true).
  unfold SFadd. cbn [cond_Zopp Z.add]. unfold binary_normalize, binary_round.
  destruct (shl_align _ _ _) as [mz ez].
  pose proof (binary32_round_sign false (Z.pos mz) ez loc_Exact) as Hs.
  unfold Binary32.prec, Binary32.emax in Hs.
  destruct (binary_round_aux 24 128 false (Z.pos mz) ez loc_Exact);
    try reflexivity; now subst.
Qed.

Lemma binary32_add_zero_sign_clear (a : Binary32.float32) :
  Binary32.sign_clear a = true -> add a zero = a.
Proof.
  destruct a as [[|]|[|]| |[|] m e]; try discriminate; reflexivity.
Qed.

Lemma binary32_same_sym (a b : Binary32.float32) :
  Binary32.same_number a b -> Binary32.same_number b a.
Proof. intros [->|[Za Zb]]; [now left | now right]. Qed.

Lemma binary32_same_trans (a b c : Binary32.float32) :
  Binary32.same_number a b -> Binary32.same_number b c ->
  Binary32.same_number a c.
Proof.
  intros [->|[Za Zb]] [->|[Zb' Zc]]; try (now left); try (now right).
Qed.

(** Adding a zero changes at most the sign of a zero. *)
Lemma binary32_add_zero_r (a z : Binary32.float32) :
  Binary32.is_zero z = true -> Binary32.same_number (add a z) a.
Proof.
  destruct z as [sz| | |]; try discriminate. intros _.
  destruct a as [[|]|[|]| |s m e], sz; simpl;
    (now left) || (right; split; reflexivity).
Qed.

Lemma binary32_add_zero_l (a z : Binary32.float32) :
  Binary32.is_zero z = true -> Binary32.same_number (add z a) a.
Proof.
  destruct z as [sz| | |]; try discriminate. intros _.
  destruct a as [[|]|[|]| |s m e], sz; simpl;
    (now left) || (right; split; reflexivity).
Qed.

Lemma binary32_same_finite (a b : Binary32.float32) :
  Binary32.same_number a b -> Binary32.is_finite b = true ->
  Binary32.is_finite a = true.
Proof.
  intros [->|[Za _]] Fb; [exact Fb|].
  destruct a; try discriminate; reflexivity.
Qed.

Lemma binary32_nth_finite (v : list Binary32.float32) (i : nat) :
  Forall f32_finite v -> f32_finite (nth i v zero).
Proof.
  intros HF. destruct (nth_in_or_default i v zero) as [Hin| ->].
  - rewrite Forall_forall in HF. now apply HF.
  - split; reflexivity.
Qed.

(** *** One-hot against direct gather, in binary32 *)

Lemma binary32_fold_add_same (l l' : list Binary32.float32)
      (a a' : Binary32.float32) :
  Forall2 Binary32.same_number l l' -> Binary32.same_number a a' ->
  Binary32.same_number (fold_left add l a) (fold_left add l' a').
Proof.
  intros HF. revert a a'.
  induction HF as [|x y l l' Hxy _ IH]; intros a a' Ha; simpl.
  - exact Ha.
  - apply IH. now apply binary32_same_add.
Qed.

(** Adding zeros changes at most the sign of a zero. *)
Lemma binary32_fold_add_zeros (l : list Binary32.float32)
      (a : Binary32.float32) :
  Forall (fun z => Binary32.is_zero z = true) l ->
  Binary32.same_number (fold_left add l a) a.
Proof.
  intros HF. revert a. induction HF as [|z l Hz _ IH]; intros a;
    cbn [fold_left].
  - now left.
  - eapply binary32_same_trans; [apply IH | now apply binary32_add_zero_r].
Qed.

Lemma binary32_mul_zero_is_zero (a : Binary32.float32) :
  Binary32.is_finite a = true -> Binary32.is_zero (mul a zero) = true.
Proof. destruct a as [sa| | |sa ma ea]; try discriminate; reflexivity. Qed.

(** After the id [x] is passed, every product with the one-hot row is a
    zero. *)
Lemma binary32_products_after (x : Z) (v : list Binary32.float32) (s : nat) :
  (x < Z.of_nat s)%Z ->
  Forall f32_finite v ->
  Forall (fun z => Binary32.is_zero z = true)
         (zip_with mul v (map (fun i => of_bool (Z.eqb x (Z.of_nat i)))
                              (seq s (length v)))).
Proof.
  intros Hx HF. revert s Hx. induction HF as [|a v [Fa _] _ IH];
    intros s Hx; simpl; constructor.
  - destruct (Z.eqb_spec x (Z.of_nat s)); [lia|].
    now apply binary32_mul_zero_is_zero.
  - apply IH. lia.
Qed.

Lemma binary32_fold_one_hot (x : Z) (v : list Binary32.float32) (s : nat)
      (a : Binary32.float32) :
  (Z.of_nat s <= x)%Z -> Binary32.is_zero a = true ->
  Forall f32_finite v ->
  Binary32.same_number
    (fold_left add
       (zip_with mul v (map (fun i => of_bool (Z.eqb x (Z.of_nat i)))
                            (seq s (length v))))
       a)
    (nth (Z.to_nat x - s) v zero).
Proof.
  intros Hx Za HF. revert s a Hx Za.
  induction HF as [|y v Hy HF IH]; intros s a Hx Za.
  - simpl. destruct (Z.to_nat x - s)%nat; now right.
  - cbn [length seq map zip_with fold_left].
    destruct (Z.eqb_spec x (Z.of_nat s)) as [E|N]; cbn [of_bool].
    + rewrite (binary32_mul_one Hy).
      replace (Z.to_nat x - s)%nat with 0%nat by lia. cbn [nth].
      eapply binary32_same_trans;
        [apply binary32_fold_add_zeros, binary32_products_after;
         [lia | exact HF]
        | now apply binary32_add_zero_l].
    + replace (Z.to_nat x - s)%nat with (S (Z.to_nat x - S s)) by lia.
      cbn [nth]. apply IH; [lia|].
      destruct Hy as [Fy _].
      destruct a as [[|]| | |]; try discriminate;
        destruct y as [[|]| | |[|] my ey]; try discriminate; reflexivity.
Qed.

(** In binary32, on a well-formed finite vocabulary vector, the one-hot
    product and sum is the number the direct gather reads (up to the
    sign of a zero); for an id outside the vocabulary it is a zero. *)
Lemma binary32_token_is_gather (v : list Binary32.float32) (x : Z) :
  Forall f32_finite v -> (0 <= x)%Z ->
  Binary32.same_number (token_log_ppx v x) (nth (Z.to_nat x) v zero).
Proof.
  intros HF Hx. unfold token_log_ppx, np_sum, one_hot.
  rewrite <- (Nat.sub_0_r (Z.to_nat x)).
  apply binary32_fold_one_hot; [lia | reflexivity | exact HF].
Qed.

Lemma binary32_token_finite (v : list Binary32.float32) (x : Z) :
  Forall f32_finite v -> Binary32.is_finite (token_log_ppx v x) = true.
Proof.
  intros HF. destruct (Z_lt_le_dec x 0) as [Hneg|Hpos].
  - apply (@binary32_same_finite _ zero); [|reflexivity].
    unfold token_log_ppx, np_sum, one_hot.
    apply binary32_fold_add_zeros, binary32_products_after; [lia|exact HF].
  - apply (binary32_same_finite (@binary32_token_is_gather v x HF Hpos)).
    apply (@binary32_nth_finite v (Z.to_nat x) HF).
Qed.

(** *** The log-perplexity in binary32 *)

(** The sum of the mask values is the sum of as many ones as there are
    non-pad positions. *)
Lemma binary32_count {A : Type} (pos : list (list A * Z))
      (a : Binary32.float32) :
  Binary32.sign_clear a = true ->
  fold_left add (map (fun p => mask (snd p)) pos) a
  = fold_left add (map (fun _ : list A * Z => one) (filter is_token pos)) a.
Proof.
  revert a. induction pos as [|p pos IH]; intros a Ha; [reflexivity|].
  cbn [map fold_left filter].
  assert (Hm : mask (snd p)
               = if Z.eqb (snd p) pad_id then zero else one :> Binary32.float32).
  { unfold mask. destruct (Z.eqb (snd p) pad_id); reflexivity. }
  assert (Ht : is_token p = negb (Z.eqb (snd p) pad_id)) by reflexivity.
  rewrite Hm, Ht. destruct (Z.eqb (snd p) pad_id); cbn [negb map fold_left].
  - rewrite (binary32_add_zero_sign_clear _ Ha). now apply IH.
  - apply IH. now apply binary32_add_one_sign_clear.
Qed.

Lemma binary32_token_selected (v : list Binary32.float32) (x : Z) :
  Forall f32_finite v ->
  Binary32.same_number (token_log_ppx v x) (f32_gather (v, x)).
Proof.
  intros HF. unfold f32_gather, in_range. simpl fst; simpl snd.
  destruct (Z.leb_spec 0 x) as [Hpos|Hneg]; cbn [andb].
  - destruct (Z.ltb_spec x (Z.of_nat (length v))) as [Hin|Hout].
    + now apply binary32_token_is_gather.
    + rewrite <- (nth_overflow v (n := Z.to_nat x) zero) by lia.
      now apply binary32_token_is_gather.
  - unfold token_log_ppx, np_sum, one_hot.
    apply binary32_fold_add_zeros, binary32_products_after; [lia|exact HF].
Qed.

Lemma f32_gather_finite (v : list Binary32.float32) (x : Z) :
  Forall f32_finite v -> f32_finite (f32_gather (v, x)).
Proof.
  intros HF. unfold f32_gather. simpl fst; simpl snd.
  destruct (in_range x (length v)).
  - now apply binary32_nth_finite.
  - split; reflexivity.
Qed.

(** What [real_log_ppx] holds at one position of a well-formed finite
    batch: the number the one-hot row keeps at a non-pad position, a
    zero at a pad position. *)
Lemma binary32_masked (v : list Binary32.float32) (x : Z) :
  Forall f32_finite v ->
  if is_token (v, x)
  then Binary32.same_number (masked v x) (f32_gather (v, x))
  else Binary32.is_zero (masked v x) = true.
Proof.
  intros HF.
  assert (Hm : mask x = if Z.eqb x pad_id then zero else one :> Binary32.float32).
  { unfold mask. destruct (Z.eqb x pad_id); reflexivity. }
  unfold is_token, masked. simpl snd. rewrite Hm.
  destruct (Z.eqb x pad_id); cbn [negb].
  - apply binary32_mul_zero_is_zero. now apply binary32_token_finite.
  - eapply binary32_same_trans.
    + apply binary32_same_mul. now apply binary32_token_selected.
    + left. apply binary32_mul_one. now apply f32_gather_finite.
Qed.

Lemma binary32_total (f g : list Binary32.float32 * Z -> Binary32.float32)
      (pos : list (list Binary32.float32 * Z)) (a a' : Binary32.float32) :
  Forall (fun p => if is_token p
                   then Binary32.same_number (f p) (g p)
                   else Binary32.is_zero (f p) = true) pos ->
  Binary32.same_number a a' ->
  Binary32.same_number (fold_left add (map f pos) a)
                       (fold_left add (map g (filter is_token pos)) a').
Proof.
  intros HF. revert a a'. induction HF as [|p pos Hp _ IH]; intros a a' Ha.
  - exact Ha.
  - cbn [map fold_left filter]. destruct (is_token p).
    + cbn [map fold_left]. apply IH. now apply binary32_same_add.
    + apply IH.
      eapply binary32_same_trans; [now apply binary32_add_zero_r | exact Ha].
Qed.

Lemma positions_valid
      (predictions : list (list (list Binary32.float32)))
      (targets : list (list Z)) :
  f32_valid3 predictions ->
  Forall (fun p => Forall f32_finite (fst p)) (positions predictions targets).
Proof.
  unfold positions. intros HF. revert targets.
  induction HF as [|row rest Hrow _ IH]; intros [|trow trest]; simpl;
    try constructor.
  apply Forall_app. split; [|now apply IH].
  clear - Hrow. revert trow.
  induction Hrow as [|v row Hv _ IHr]; intros [|x trow]; simpl;
    constructor; auto.
Qed.

(** In binary32, on a batch of shapes (B, T, V) and (B, T) with
    well-formed finite predictions, whatever the target ids are, the
    log-perplexity is minus the sum, over the non-pad positions in
    row-major order, of the entries the one-hot rows keep
    ([predictions[b,t,targets[b,t]]] for an id in [0, V), a zero
    otherwise), divided by the sum of as many ones, all in binary32
    arithmetic, up to the sign of a zero. *)
Lemma binary32_log_ppx (B T V : nat)
      (predictions : list (list (list Binary32.float32)))
      (targets : list (list Z)) :
  shape3 B T V predictions -> shape2 B T targets ->
  f32_valid3 predictions ->
  exists l,
    log_ppx predictions targets = Ok l /\
    Binary32.same_number l
      (neg (div (np_sum (map f32_gather (tokens predictions targets)))
                (np_sum (map (fun _ => one) (tokens predictions targets))))).
Proof.
  intros H3 H2 HF.
  pose proof (shapes_aligned H3 H2) as HA.
  eexists. split; [exact (log_ppx_aligned HA)|].
  unfold np_sum, tokens.
  rewrite (@binary32_count _ (positions predictions targets) zero)
    by reflexivity.
  apply binary32_same_neg, binary32_same_div.
  apply binary32_total; [|now left].
  pose proof (positions_valid targets HF) as HV.
  eapply Forall_impl; [|exact HV].
  intros [v x] Hv. simpl in *. now apply binary32_masked.
Qed.

(** In binary32, on a well-formed finite batch with exactly one non-pad
    token, of true-class log-probability [p], the log-perplexity is
    [-p], up to the sign of a zero. *)
Lemma binary32_single_token (B T V : nat)
      (predictions : list (list (list Binary32.float32)))
      (targets : list (list Z)) (v : list Binary32.float32) (x : Z) :
  shape3 B T V predictions -> shape2 B T targets ->
  f32_valid3 predictions -> targets_in_range V targets ->
  tokens predictions targets = [(v, x)] ->
  exists l,
    log_ppx predictions targets = Ok l /\
    Binary32.same_number l (neg (nth (Z.to_nat x) v zero)).
Proof.
  intros H3 H2 HF HR Htok.
  destruct (binary32_log_ppx H3 H2 HF) as (l & El & Hl).
  exists l. split; [exact El|].
  rewrite Htok in Hl. cbn [map np_sum fold_left] in Hl.
  assert (Hin : In (v, x) (positions predictions targets)).
  { apply (proj1 (filter_In is_token (v, x) _)).
    fold (tokens predictions targets). rewrite Htok. now left. }
  assert (Hv : Forall f32_finite v).
  { pose proof (positions_valid targets HF) as HV.
    rewrite Forall_forall in HV. exact (HV _ Hin). }
  assert (Hx : in_range x (length v) = true).
  { pose proof (positions_in_range H3 HR) as HP.
    rewrite Forall_forall in HP. exact (HP _ Hin). }
  assert (Hg : f32_gather (v, x) = nth (Z.to_nat x) v zero).
  { unfold f32_gather. simpl fst; simpl snd. now rewrite Hx. }
  rewrite Hg in Hl.
  eapply binary32_same_trans; [exact Hl|].
  apply binary32_same_neg.
  change (add zero one) with (@one Binary32.float32 _).
  eapply binary32_same_trans.
  - apply binary32_same_div. now apply binary32_add_zero_l.
  - left. apply binary32_div_one. now apply binary32_nth_finite.
Qed.

(** *** Two binary32 batches with the same targets *)

(** In binary32: two finite batches with the same targets that agree,
    at every position, in the entry of the true class have the same
    log-perplexity, up to the sign of a zero. *)
Lemma binary32_other_classes_irrelevant (B T V : nat)
      (p p' : list (list (list Binary32.float32))) (targets : list (list Z)) :
  shape3 B T V p -> shape3 B T V p' -> shape2 B T targets ->
  f32_finite3 p -> f32_finite3 p' ->
  (forall b t, (b < B)%nat -> (t < T)%nat ->
     true_log_prob p targets b t = true_log_prob p' targets b t) ->
  exists l l',
    log_ppx p targets = Ok l /\ log_ppx p' targets = Ok l' /\
    Binary32.same_number l l'.
Proof.
  intros H3 H3' H2 HF HF' Hagree.
  apply log_ppx_same_true_class
    with (same := Binary32.same_number)
         (finite := fun a => Binary32.is_finite a = true)
         (B := B) (T' := T) (V := V); try assumption.
  - intros a. now left.
  - apply binary32_same_add.
  - apply binary32_same_mul.
  - apply binary32_same_div.
  - apply binary32_same_neg.
  - intros a b. now apply binary32_mul_zero.
Qed.

(** In binary32: two well-formed finite batches with the same targets
    that agree at every non-pad position have the same log-perplexity,
    up to the sign of a zero. *)
Lemma binary32_pad_positions_irrelevant (B T V : nat)
      (p p' : list (list (list Binary32.float32))) (targets : list (list Z)) :
  shape3 B T V p -> shape3 B T V p' -> shape2 B T targets ->
  f32_valid3 p -> f32_valid3 p' ->
  (forall b t, (b < B)%nat -> (t < T)%nat ->
     target_at targets b t <> pad_id -> vec_at p b t = vec_at p' b t) ->
  exists l l',
    log_ppx p targets = Ok l /\ log_ppx p' targets = Ok l' /\
    Binary32.same_number l l'.
Proof.
  intros H3 H3' H2 HF HF' Hagree.
  apply log_ppx_same_tokens
    with (same := Binary32.same_number)
         (finite := fun a => Binary32.is_finite a = true)
         (B := B) (T' := T) (V := V); try assumption.
  - intros a. now left.
  - apply binary32_same_add.
  - apply binary32_same_div.
  - apply binary32_same_neg.
  - intros a b. now apply binary32_mul_zero.
  - intros b t Hb Ht _.
    destruct (vec_at_shape H3 Hb Ht) as (_ & Hb1 & Ht1).
    destruct (vec_at_shape H3' Hb Ht) as (_ & Hb2 & Ht2).
    split; apply binary32_token_finite;
      now apply (vec_at_Forall (Q := Forall f32_finite)).
Qed.

(** The sample batches give in binary32 what they give on [xreal]: the
    scenario of the specification has log-perplexity 1.5; other values
    at the padded position or away from the true classes change
    nothing; one token of log-probability -2 has log-perplexity 2; a
    lower true-class log-probability gives a higher log-perplexity
    (3). *)
Example binary32_samples :
  log_ppx f32_sample_predictions sample_targets
  = Ok (S754_finite false 12582912 (-23)) /\
  log_ppx f32_sample_repadded sample_targets
  = log_ppx f32_sample_predictions sample_targets /\
  log_ppx f32_sample_other_classes sample_targets
  = log_ppx f32_sample_predictions sample_targets /\
  log_ppx f32_sample_predictions [[0; 2; 0]]%Z = Ok (Binary32.of_Z 2) /\
  log_ppx f32_sample_worse sample_targets = Ok (Binary32.of_Z 3).
Proof. vm_compute. repeat split. Qed.

(** * Further properties of the cells *)

Local Close Scope R_scope.

(** ** For any scalar type *)

Section Cells.
Context {T : Type} `{Numeric T}.

Lemma one_hot_from (x : Z) (s n : nat) :
  map (fun i => of_bool (Z.eqb x (Z.of_nat i))) (seq s n)
  = if ((Z.of_nat s <=? x)%Z && (x <? Z.of_nat (s + n))%Z)%bool
    then repeat zero (Z.to_nat x - s) ++ one
         :: repeat zero (s + n - Z.to_nat x - 1)
    else repeat zero n.
Proof.
  revert s. induction n as [|n IH]; intros s.
  - simpl. destruct (_ && _)%bool eqn:E; [|reflexivity].
    apply andb_prop in E. destruct E as [E1 E2].
    apply Z.leb_le in E1. apply Z.ltb_lt in E2. lia.
  - cbn [seq map]. rewrite IH.
    destruct (Z.eqb_spec x (Z.of_nat s)) as [E|N].
    + replace ((Z.of_nat s <=? x)%Z && (x <? Z.of_nat (s + S n))%Z)%bool
        with true
        by (symmetry; apply andb_true_intro;
            split; [apply Z.leb_le | apply Z.ltb_lt]; lia).
      replace ((Z.of_nat (S s) <=? x)%Z && (x <? Z.of_nat (S s + n))%Z)%bool
        with false
        by (symmetry; apply andb_false_intro1; apply Z.leb_gt; lia).
      replace (Z.to_nat x - s)%nat with 0%nat by lia.
      replace (s + S n - Z.to_nat x - 1)%nat with n by lia.
      reflexivity.
    + cbn [of_bool].
      destruct ((Z.of_nat (S s) <=? x)%Z && (x <? Z.of_nat (S s + n))%Z)%bool
        eqn:E.
      * apply andb_prop in E. destruct E as [E1 E2].
        apply Z.leb_le in E1. apply Z.ltb_lt in E2.
        replace ((Z.of_nat s <=? x)%Z && (x <? Z.of_nat (s + S n))%Z)%bool
          with true
          by (symmetry; apply andb_true_intro;
              split; [apply Z.leb_le | apply Z.ltb_lt]; lia).
        replace (Z.to_nat x - s)%nat with (S (Z.to_nat x - S s)) by lia.
        replace (s + S n - Z.to_nat x - 1)%nat
          with (S s + n - Z.to_nat x - 1)%nat by lia.
        reflexivity.
      * replace ((Z.of_nat s <=? x)%Z && (x <? Z.of_nat (s + S n))%Z)%bool
          with false; [reflexivity|].
        symmetry. apply andb_false_iff. apply andb_false_iff in E.
        destruct E as [E|E]; [left; apply Z.leb_gt in E; apply Z.leb_gt
                             |right; apply Z.ltb_ge in E; apply Z.ltb_ge]; lia.
Qed.

(** X1. A one-hot row of width [n] holds a single 1, at the index of the
    id, when the id is in [0, n), and zeros only for any other id. *)
Theorem X1_one_hot_row (x : Z) (n : nat) :
  one_hot x n
  = if in_range x n
    then repeat zero (Z.to_nat x) ++ one :: repeat zero (n - Z.to_nat x - 1)
    else repeat zero n.
Proof.
  unfold one_hot, in_range. rewrite one_hot_from.
  simpl Z.of_nat. rewrite Nat.sub_0_r. reflexivity.
Qed.

(** X2. [reshaped_targets] has the shape of [targets] with one more
    axis, of the requested width. *)
Theorem X2_reshaped_targets_shape (B T' n : nat) (targets : list (list Z)) :
  shape2 B T' targets -> shape3 B T' n (reshaped_targets targets n).
Proof.
  intros [HB HT]. unfold reshaped_targets. split.
  - now rewrite length_map.
  - apply Forall_map. eapply Forall_impl; [|exact HT].
    intros row Hrow. simpl. split; [now rewrite length_map|].
    apply Forall_map. apply Forall_forall. intros x _.
    apply length_one_hot.
Qed.

Lemma zip_with_shape2 {A C : Type} (f : A -> Z -> C) (B T' : nat)
      (xs : list (list A)) (targets : list (list Z)) :
  Forall2 (fun (row : list A) (trow : list Z) => length row = length trow)
          xs targets ->
  shape2 B T' targets ->
  array_shape2 B T' (zip_with (zip_with f) xs targets).
Proof.
  intros HF [HB HT]. subst B. split.
  - clear HT. induction HF; simpl; congruence.
  - induction HF as [|row trow xs ts Hlen _ IH]; simpl; constructor.
    + apply Forall_inv in HT. rewrite <- HT.
      clear - Hlen. revert trow Hlen.
      induction row as [|a row IHr]; intros [|x trow] Hlen; simpl in *;
        try discriminate; [reflexivity|].
      f_equal. apply IHr. congruence.
    + apply IH. now apply Forall_inv_tail in HT.
Qed.

(** X3. On arrays of shapes (B, T, V) and (B, T) no cell raises, and
    [total_log_ppx], [non_pad] and [real_log_ppx] all have shape
    (B, T). *)
Theorem X3_cells_keep_shape (B T' V : nat)
        (predictions : list (list (list T))) (targets : list (list Z)) :
  shape3 B T' V predictions -> shape2 B T' targets ->
  exists t r,
    total_log_ppx predictions targets = Ok t /\
    real_log_ppx predictions targets = Ok r /\
    array_shape2 B T' t /\ array_shape2 B T' r /\
    array_shape2 B T' (non_pad (T := T) targets).
Proof.
  intros H3 H2. pose proof (shapes_aligned H3 H2) as HA.
  do 2 eexists.
  split; [exact (total_log_ppx_aligned HA)|].
  split; [exact (real_log_ppx_aligned HA)|].
  assert (HL : Forall2 (fun (row : list (list T)) (trow : list Z) =>
                          length row = length trow) predictions targets).
  { eapply Forall2_impl; [|exact HA]. intros row trow Hrow.
    eapply Forall2_length; exact Hrow. }
  split; [now apply zip_with_shape2|].
  split; [now apply zip_with_shape2|].
  destruct H2 as [HB HT]. unfold non_pad. split.
  - now rewrite length_map.
  - apply Forall_map. eapply Forall_impl; [|exact HT].
    intros row Hrow. simpl. now rewrite length_map.
Qed.

(** An elementwise product raises the shape error only. *)
Lemma zipM_raises {A B C : Type} (f : A -> B -> outcome C)
      (xs : list A) (ys : list B) (e : error) :
  (forall x y e', f x y = Raise e' -> e' = ShapeMismatch) ->
  zipM f xs ys = Raise e -> e = ShapeMismatch.
Proof.
  intros Hf. revert ys. induction xs as [|x xs IH]; intros [|y ys] E;
    simpl in E; try discriminate; try congruence.
  destruct (f x y) eqn:Ef; simpl in E.
  - destruct (zipM f xs ys) eqn:Ez; simpl in E; [discriminate|].
    injection E as <-. now apply (IH ys).
  - injection E as <-. now apply (Hf x y).
Qed.

Lemma mapM_raises {A C : Type} (f : A -> outcome C) (xs : list A) (e : error) :
  (forall x e', f x = Raise e' -> e' = ShapeMismatch) ->
  mapM f xs = Raise e -> e = ShapeMismatch.
Proof.
  intros Hf. induction xs as [|x xs IH]; intros E; simpl in E;
    [discriminate|].
  destruct (f x) eqn:Ef; simpl in E.
  - destruct (mapM f xs) eqn:Ez; simpl in E; [discriminate|].
    injection E as <-. now apply IH.
  - injection E as <-. now apply (Hf x).
Qed.

Lemma broadcast_raises {A B C : Type} (f : A -> B -> outcome C)
      (xs : list A) (ys : list B) (e : error) :
  (forall x y e', f x y = Raise e' -> e' = ShapeMismatch) ->
  broadcast f xs ys = Raise e -> e = ShapeMismatch.
Proof.
  intros Hf E.
  destruct xs as [|x [|x' xs]], ys as [|y [|y' ys]]; unfold broadcast in E;
    first [ eapply zipM_raises; [exact Hf | exact E]
          | eapply mapM_raises; [|exact E]; intros ? ?; apply Hf ].
Qed.

Lemma zipM_length_mismatch {A B C : Type} (f : A -> B -> outcome C)
      (xs : list A) (ys : list B) :
  (forall x y e', f x y = Raise e' -> e' = ShapeMismatch) ->
  length xs <> length ys -> zipM f xs ys = Raise ShapeMismatch.
Proof.
  intros Hf. revert ys. induction xs as [|x xs IH]; intros [|y ys] HL;
    simpl in *; try reflexivity; [congruence|].
  destruct (f x y) eqn:Ef; simpl.
  - rewrite IH; [reflexivity | congruence].
  - f_equal. now apply (Hf x y).
Qed.

(** X5. When [predictions] and [targets] hold different numbers of
    sequences, and neither holds exactly one (which would be
    broadcast), [compute] raises [ShapeMismatch]. *)
Theorem X5_batch_sizes_disagree `{Exponential T}
        (predictions : list (list (list T))) (targets : list (list Z)) :
  length predictions <> length targets ->
  length predictions <> 1%nat -> length targets <> 1%nat ->
  compute predictions targets = Raise ShapeMismatch.
Proof.
  intros HL HP HT.
  assert (E3 : mul3 predictions
                 (reshaped_targets targets (last_dim predictions))
               = Raise ShapeMismatch).
  { unfold mul3, reshaped_targets.
    set (ys := map (map (fun x => one_hot x (last_dim predictions))) targets).
    assert (HLy : length predictions <> length ys)
      by (unfold ys; now rewrite length_map).
    assert (HTy : length ys <> 1%nat)
      by (unfold ys; now rewrite length_map).
    assert (Hz : zipM mul2 predictions ys = Raise ShapeMismatch).
    { apply zipM_length_mismatch; [|exact HLy].
      intros a b e'. apply broadcast_raises.
      intros a' b' e''. apply broadcast_raises.
      intros x y e3 E. discriminate E. }
    clearbody ys.
    destruct predictions as [|x [|x' xs]], ys as [|y [|y' ys]];
      simpl in *; try congruence; exact Hz. }
  unfold compute, log_ppx, real_log_ppx, total_log_ppx.
  now rewrite E3.
Qed.

End Cells.

Lemma X2_witness :
  shape2 1 3 sample_targets /\
  shape3 1 3 4 (reshaped_targets (T := xreal) sample_targets 4).
Proof.
  assert (H2 : shape2 1 3 sample_targets) by concrete.
  split; [exact H2|]. apply X2_reshaped_targets_shape. exact H2.
Defined.

Lemma X3_witness :
  shape3 1 3 4 sample_predictions /\ shape2 1 3 sample_targets /\
  exists t r,
    total_log_ppx sample_predictions sample_targets = Ok t /\
    real_log_ppx sample_predictions sample_targets = Ok r /\
    array_shape2 1 3 t /\ array_shape2 1 3 r /\
    array_shape2 1 3 (non_pad (T := xreal) sample_targets).
Proof.
  assert (H3 : shape3 1 3 4 sample_predictions) by concrete.
  assert (H2 : shape2 1 3 sample_targets) by concrete.
  split; [exact H3|]. split; [exact H2|].
  exact (X3_cells_keep_shape H3 H2).
Defined.

Lemma X5_witness :
  length (sample_predictions ++ sample_predictions)
  <> length [[1; 2; 0]; [1; 2; 0]; [1; 2; 0]]%Z /\
  compute (sample_predictions ++ sample_predictions)
          [[1; 2; 0]; [1; 2; 0]; [1; 2; 0]]%Z
  = Raise ShapeMismatch.
Proof.
  assert (HL : length (sample_predictions ++ sample_predictions)
               <> length [[1; 2; 0]; [1; 2; 0]; [1; 2; 0]]%Z)
    by (simpl; lia).
  split; [exact HL|].
  apply X5_batch_sizes_disagree; [exact HL | simpl; lia | simpl; lia].
Defined.

(** ** The mask and the masked array *)

Local Open Scope R_scope.

Lemma Rsum_mask_ids (l : list Z) :
  Rsum (map mask_R l)
  = INR (length (filter (fun x => negb (Z.eqb x pad_id)) l)).
Proof.
  induction l as [|x l IH]; [reflexivity|].
  cbn [map filter]. rewrite Rsum_cons, IH. unfold mask_R.
  destruct (Z.eqb x pad_id); cbn [negb length].
  - lra.
  - rewrite S_INR. lra.
Qed.

Lemma non_pad_mask_R (targets : list (list Z)) :
  non_pad targets = map (map (fun x => Fin (mask_R x))) targets.
Proof.
  unfold non_pad. apply map_ext. intros row. apply map_ext. intros x.
  exact (mask_Fin x).
Qed.

Lemma np_sum2_non_pad (targets : list (list Z)) :
  np_sum2 (non_pad targets) = Fin (INR (non_pad_count targets)).
Proof.
  rewrite non_pad_mask_R. unfold np_sum2, non_pad_count.
  rewrite <- concat_map, <- map_map, np_sum_Fin.
  now rewrite Rsum_mask_ids.
Qed.

(** X6. [non_pad] holds 0.0 where the target is the pad id and 1.0
    elsewhere, and (in exact arithmetic) its sum, the divisor of the
    last cell, is the number of non-pad targets. *)
Theorem X6_non_pad_counts (targets : list (list Z)) :
  non_pad targets
  = map (map (fun x => if Z.eqb x pad_id then Fin 0 else Fin 1)) targets /\
  np_sum2 (non_pad targets) = Fin (INR (non_pad_count targets)).
Proof.
  split; [|apply np_sum2_non_pad].
  rewrite non_pad_mask_R. apply map_ext. intros row. apply map_ext.
  intros x. unfold mask_R. now destruct (Z.eqb x pad_id).
Qed.

Lemma zip_with2_through {A C : Type} (Q : A -> Prop)
      (f g : A -> Z -> C) (h : C -> Z -> C)
      (xs : list (list A)) (ys : list (list Z)) :
  Forall (Forall Q) xs ->
  (forall a x, Q a -> g a x = h (f a x) x) ->
  zip_with (zip_with g) xs ys
  = zip_with (zip_with h) (zip_with (zip_with f) xs ys) ys.
Proof.
  intros HQ Hg. revert ys.
  induction HQ as [|row rest Hrow _ IH]; intros [|trow trest]; simpl;
    try reflexivity.
  f_equal; [|apply IH].
  clear - Hrow Hg. revert trow.
  induction Hrow as [|a row Ha _ IHr]; intros [|x trow]; simpl;
    try reflexivity.
  f_equal; [now apply Hg | apply IHr].
Qed.

(** X7. On finite predictions, [real_log_ppx] is [total_log_ppx] with
    the entries of the pad positions replaced by 0 and every other entry
    left as it is. *)
Theorem X7_real_is_total_off_padding (B T V : nat)
        (predictions : list (list (list xreal))) (targets : list (list Z)) :
  shape3 B T V predictions -> shape2 B T targets -> finite3 predictions ->
  exists t,
    total_log_ppx predictions targets = Ok t /\
    real_log_ppx predictions targets
    = Ok (zip_with (zip_with (keep_non_pad (fun _ => Fin 0))) t targets).
Proof.
  intros H3 H2 HF. pose proof (shapes_aligned H3 H2) as HA.
  eexists. split; [exact (total_log_ppx_aligned HA)|].
  rewrite (real_log_ppx_aligned HA). f_equal.
  apply (zip_with2_through (Q := finite_vec)); [exact HF|].
  intros v x Hv. rewrite (masked_finite x Hv), (token_log_ppx_finite x Hv).
  unfold keep_non_pad, mask_R.
  destruct (Z.eqb x pad_id); f_equal; lra.
Qed.

Lemma X7_witness :
  shape3 1 3 4 sample_predictions /\ shape2 1 3 sample_targets /\
  finite3 sample_predictions /\
  exists t,
    total_log_ppx sample_predictions sample_targets = Ok t /\
    real_log_ppx sample_predictions sample_targets
    = Ok (zip_with (zip_with (keep_non_pad (fun _ => Fin 0))) t
                   sample_targets).
Proof.
  assert (H3 : shape3 1 3 4 sample_predictions) by concrete.
  assert (H2 : shape2 1 3 sample_targets) by concrete.
  assert (HF : finite3 sample_predictions) by concrete.
  split; [exact H3|]. split; [exact H2|]. split; [exact HF|].
  exact (X7_real_is_total_off_padding H3 H2 HF).
Defined.

Local Close Scope R_scope.

Lemma binary32_same_valid (a b : Binary32.float32) :
  Binary32.same_number a b -> f32_finite b -> f32_finite a.
Proof.
  intros [->|[Za _]] Hb; [exact Hb|].
  destruct a; try discriminate. split; reflexivity.
Qed.

Lemma binary32_token_valid (v : list Binary32.float32) (x : Z) :
  Forall f32_finite v -> f32_finite (token_log_ppx v x).
Proof.
  intros HF.
  exact (binary32_same_valid (binary32_token_selected x HF)
                             (f32_gather_finite x HF)).
Qed.

(** X8. In binary32, on well-formed finite predictions, [real_log_ppx]
    is [total_log_ppx] with each entry of a pad position replaced by the
    zero of the same sign (the [-0.] the notebook prints for negative
    log-probabilities) and every other entry left as it is, bit for
    bit. *)
Theorem X8_binary32_pad_entries_are_signed_zeros (B T V : nat)
        (predictions : list (list (list Binary32.float32)))
        (targets : list (list Z)) :
  shape3 B T V predictions -> shape2 B T targets ->
  f32_valid3 predictions ->
  exists t,
    total_log_ppx predictions targets = Ok t /\
    real_log_ppx predictions targets
    = Ok (zip_with (zip_with (keep_non_pad
                                (fun a => S754_zero (f32_sign a))))
                   t targets).
Proof.
  intros H3 H2 HF. pose proof (shapes_aligned H3 H2) as HA.
  eexists. split; [exact (total_log_ppx_aligned HA)|].
  rewrite (real_log_ppx_aligned HA). f_equal.
  apply (zip_with2_through (Q := Forall f32_finite)); [exact HF|].
  intros v x Hv. pose proof (binary32_token_valid x Hv) as Ht.
  assert (Hm : mask x = if Z.eqb x pad_id then zero else one
               :> Binary32.float32).
  { unfold mask. destruct (Z.eqb x pad_id); reflexivity. }
  unfold masked, keep_non_pad. rewrite Hm.
  destruct (Z.eqb x pad_id).
  - destruct Ht as [Ft _].
    destruct (token_log_ppx v x) as [s| | |s m e]; try discriminate;
      simpl; now rewrite xorb_false_r.
  - now apply binary32_mul_one.
Qed.

Lemma X8_witness :
  shape3 1 3 4 f32_sample_predictions /\ shape2 1 3 sample_targets /\
  f32_valid3 f32_sample_predictions /\
  exists t,
    total_log_ppx f32_sample_predictions sample_targets = Ok t /\
    real_log_ppx f32_sample_predictions sample_targets
    = Ok (zip_with (zip_with (keep_non_pad
                                (fun a => S754_zero (f32_sign a))))
                   t sample_targets).
Proof.
  assert (H3 : shape3 1 3 4 f32_sample_predictions) by concrete.
  assert (H2 : shape2 1 3 sample_targets) by concrete.
  assert (HF : f32_valid3 f32_sample_predictions) by concrete.
  split; [exact H3|]. split; [exact H2|]. split; [exact HF|].
  exact (X8_binary32_pad_entries_are_signed_zeros H3 H2 HF).
Defined.

(** ** A single row of targets is stretched over the batch *)

Section Stretch.
Context {T : Type} `{Numeric T}.

Lemma mapM_stretch {A B C : Type} (f : A -> B -> outcome C)
      (xs : list A) (y : B) :
  mapM (fun x => f x y) xs = zipM f xs (repeat y (length xs)).
Proof.
  induction xs as [|x xs IH]; simpl; [reflexivity|]. now rewrite IH.
Qed.

Lemma broadcast_stretch {A B C : Type} (f : A -> B -> outcome C)
      (xs : list A) (y : B) :
  broadcast f xs [y] = broadcast f xs (repeat y (length xs)).
Proof.
  rewrite (broadcast_same_length f xs (repeat y (length xs)))
    by (now rewrite repeat_length).
  destruct xs as [|x [|x' xs]]; try reflexivity.
  unfold broadcast. apply mapM_stretch.
Qed.

Lemma zipM_length {A B C : Type} (f : A -> B -> outcome C)
      (xs : list A) (ys : list B) (cs : list C) :
  zipM f xs ys = Ok cs -> length cs = length xs.
Proof.
  revert ys cs. induction xs as [|x xs IH]; intros [|y ys] cs E;
    simpl in E; try discriminate.
  - injection E as <-. reflexivity.
  - destruct (f x y); simpl in E; [|discriminate].
    destruct (zipM f xs ys) eqn:Ez; simpl in E; [|discriminate].
    injection E as <-. simpl. f_equal. now apply (IH ys).
Qed.

Lemma total_log_ppx_stretch (predictions : list (list (list T)))
      (trow : list Z) :
  total_log_ppx predictions [trow]
  = total_log_ppx predictions (repeat trow (length predictions)).
Proof.
  unfold total_log_ppx, mul3, reshaped_targets. cbn [map].
  rewrite map_repeat. now rewrite broadcast_stretch.
Qed.

Lemma total_log_ppx_length (predictions : list (list (list T)))
      (targets : list (list Z)) (t : list (list T)) :
  length predictions = length targets ->
  total_log_ppx predictions targets = Ok t ->
  length t = length predictions.
Proof.
  unfold total_log_ppx, mul3. intros HL E.
  rewrite broadcast_same_length in E
    by (unfold reshaped_targets; now rewrite length_map).
  destruct (zipM mul2 predictions _) eqn:Ez; simpl in E; [|discriminate].
  injection E as <-. rewrite length_map. eapply zipM_length; eassumption.
Qed.

Lemma real_log_ppx_stretch (predictions : list (list (list T)))
      (trow : list Z) :
  real_log_ppx predictions [trow]
  = real_log_ppx predictions (repeat trow (length predictions)).
Proof.
  unfold real_log_ppx. rewrite total_log_ppx_stretch.
  destruct (total_log_ppx predictions _) eqn:Et; simpl; [|reflexivity].
  apply total_log_ppx_length in Et; [|now rewrite repeat_length].
  unfold mul2, non_pad. cbn [map]. rewrite map_repeat, <- Et.
  apply broadcast_stretch.
Qed.

Lemma In_zip_nth {A B : Type} (xs : list A) (ys : list B)
      (dx : A) (dy : B) (i : nat) :
  (i < length xs)%nat -> (i < length ys)%nat ->
  In (nth i xs dx, nth i ys dy) (zip_with pair xs ys).
Proof.
  revert ys i. induction xs as [|x xs IH]; intros [|y ys] [|i] Hx Hy;
    simpl in *; try lia.
  - now left.
  - right. apply IH; lia.
Qed.

Lemma In_zip_rows {A B : Type} (xs : list (list A)) (ys : list (list B))
      (i : nat) :
  (i < length xs)%nat -> (i < length ys)%nat ->
  In (zip_with pair (nth i xs []) (nth i ys []))
     (zip_with (zip_with pair) xs ys).
Proof.
  revert ys i. induction xs as [|x xs IH]; intros [|y ys] [|i] Hx Hy;
    simpl in *; try lia.
  - now left.
  - right. apply IH; lia.
Qed.

(** Every index pair of a batch is one of its positions. *)
Lemma positions_In (B T' V : nat)
      (predictions : list (list (list T))) (targets : list (list Z))
      (b t : nat) :
  shape3 B T' V predictions -> shape2 B T' targets ->
  (b < B)%nat -> (t < T')%nat ->
  In (vec_at predictions b t, target_at targets b t)
     (positions predictions targets).
Proof.
  intros H3 [HB HT] Hb Ht.
  destruct (vec_at_shape H3 Hb Ht) as (_ & Hb' & Ht').
  unfold positions. apply in_concat.
  exists (zip_with pair (nth b predictions []) (nth b targets [])).
  split; [apply In_zip_rows; lia|].
  unfold vec_at, target_at. apply In_zip_nth; [exact Ht'|].
  rewrite Forall_forall in HT. rewrite (HT (nth b targets [])); [exact Ht|].
  apply nth_In. lia.
Qed.

Lemma non_pad_count_repeat (trow : list Z) (n : nat) :
  non_pad_count (repeat trow n) = (n * non_pad_count [trow])%nat.
Proof.
  unfold non_pad_count. cbn [concat]. rewrite app_nil_r.
  induction n as [|n IH]; [reflexivity|].
  cbn [repeat concat]. rewrite filter_app, length_app, IH. lia.
Qed.

(** X20. For any scalar type, bit for bit: against targets of a single
    row, [total_log_ppx] and [real_log_ppx] are what they are against
    the row written out once for every sequence of [predictions]. *)
Theorem X20_single_target_row_is_broadcast
        (predictions : list (list (list T))) (trow : list Z) :
  total_log_ppx predictions [trow]
  = total_log_ppx predictions (repeat trow (length predictions)) /\
  real_log_ppx predictions [trow]
  = real_log_ppx predictions (repeat trow (length predictions)).
Proof.
  split; [apply total_log_ppx_stretch | apply real_log_ppx_stretch].
Qed.

End Stretch.

Local Open Scope R_scope.

(** The sum of [real_log_ppx] on finite per-position vectors. *)
Lemma np_sum2_real
      (predictions : list (list (list xreal))) (targets : list (list Z)) :
  Forall (fun p => finite_vec (fst p)) (positions predictions targets) ->
  np_sum2 (zip_with (zip_with masked) predictions targets)
  = Fin (Rsum (map one_hot_R (tokens predictions targets))).
Proof.
  intros HF. unfold np_sum2, tokens. rewrite concat_zip_with2.
  set (pos := positions predictions targets) in *.
  replace (map (fun p => masked (fst p) (snd p)) pos)
    with (map Fin (map (fun p => one_hot_R p * mask_R (snd p)) pos)).
  2:{ rewrite map_map. apply map_ext_in. intros [v x] Hin.
      rewrite Forall_forall in HF. symmetry. apply masked_finite.
      exact (HF _ Hin). }
  now rewrite np_sum_Fin, Rsum_masked.
Qed.

(** X9. Targets of a single row are broadcast against a batch of [B]
    sequences: the sum runs over the [B] sequences but the divisor
    counts the non-pad targets of the one row only.  In exact
    arithmetic (on [xreal]: no rounding, no overflow) the result is
    therefore [B] times the log-perplexity of the batch with the row
    written out [B] times; in binary32 the two quotients are rounded
    separately and [B] times the one need not be the other. *)
Theorem X9_single_target_row_is_stretched (B T V : nat)
        (predictions : list (list (list xreal))) (trow : list Z) :
  shape3 B T V predictions -> length trow = T -> finite3 predictions ->
  (0 < B)%nat -> (0 < non_pad_count [trow])%nat ->
  exists l,
    log_ppx predictions (repeat trow B) = Ok (Fin l) /\
    log_ppx predictions [trow] = Ok (Fin (INR B * l)).
Proof.
  intros H3 HT HF HB Hc.
  assert (H2 : shape2 B T (repeat trow B)).
  { split; [apply repeat_length|]. apply Forall_forall. intros r Hr.
    apply repeat_spec in Hr. now subst. }
  pose proof (shapes_aligned H3 H2) as HA.
  pose proof (positions_finite (repeat trow B) HF) as HP.
  assert (HB' : length predictions = B) by apply H3.
  pose proof (non_pad_count_repeat trow B) as Hn.
  exists (- (Rsum (map one_hot_R (tokens predictions (repeat trow B)))
             / INR (non_pad_count (repeat trow B)))).
  split.
  - rewrite (log_ppx_flat HA HP), (length_tokens HA). f_equal.
    apply neg_div_Fin. apply not_0_INR. rewrite Hn. nia.
  - unfold log_ppx. rewrite real_log_ppx_stretch, HB'.
    rewrite (real_log_ppx_aligned HA). cbn [bind].
    rewrite (np_sum2_real _ _ HP), np_sum2_non_pad.
    rewrite neg_div_Fin by (apply not_0_INR; lia).
    f_equal. f_equal. rewrite Hn, mult_INR. field.
    split; apply not_0_INR; lia.
Qed.

Lemma X9_witness :
  shape3 2 3 4 (sample_predictions ++ sample_predictions) /\
  exists l,
    log_ppx (sample_predictions ++ sample_predictions)
            (repeat [1; 2; 0]%Z 2) = Ok (Fin l) /\
    log_ppx (sample_predictions ++ sample_predictions) [[1; 2; 0]%Z]
    = Ok (Fin (INR 2 * l)).
Proof.
  assert (H3 : shape3 2 3 4 (sample_predictions ++ sample_predictions))
    by concrete.
  split; [exact H3|].
  apply (X9_single_target_row_is_stretched (T := 3) (V := 4)).
  - exact H3.
  - reflexivity.
  - concrete.
  - lia.
  - vm_compute. lia.
Defined.

(** ** Values that are not finite *)

Lemma scale_not_finite (positive : bool) (r : R) :
  XReal.is_finite (XReal.scale positive r) = false.
Proof.
  unfold XReal.scale.
  destruct (total_order_T 0 r) as [[L|E]|L]; destruct positive; reflexivity.
Qed.

Lemma mul_of_bool_not_finite (a : xreal) (b : bool) :
  XReal.is_finite a = false -> XReal.is_finite (mul a (of_bool b)) = false.
Proof.
  destruct a; try discriminate; intros _; destruct b; simpl;
    try apply scale_not_finite; reflexivity.
Qed.

Lemma mul_zero_not_finite (a : xreal) :
  XReal.is_finite a = false -> mul a (Fin 0) = NaN.
Proof.
  destruct a; try discriminate; intros _; simpl;
    try (apply scale_zero); reflexivity.
Qed.

Lemma add_not_finite_l (a b : xreal) :
  XReal.is_finite a = false -> XReal.is_finite (add a b) = false.
Proof. destruct a, b; try discriminate; reflexivity. Qed.

Lemma add_not_finite_r (a b : xreal) :
  XReal.is_finite b = false -> XReal.is_finite (add a b) = false.
Proof. destruct a, b; try discriminate; reflexivity. Qed.

Lemma fold_add_not_finite (l : list xreal) (a : xreal) :
  XReal.is_finite a = false ->
  XReal.is_finite (fold_left add l a) = false.
Proof.
  revert a. induction l as [|b l IH]; intros a Ha; cbn [fold_left];
    [exact Ha|].
  apply IH. now apply add_not_finite_l.
Qed.

Lemma fold_add_NaN (l : list xreal) : fold_left add l NaN = NaN.
Proof. induction l as [|b l IH]; cbn [fold_left]; [reflexivity | exact IH]. Qed.

Lemma fold_add_In_NaN (l : list xreal) (a : xreal) :
  In NaN l -> fold_left add l a = NaN.
Proof.
  revert a. induction l as [|b l IH]; intros a Hin; [destruct Hin|].
  destruct Hin as [E|Hin]; cbn [fold_left].
  - subst b. replace (add a NaN) with NaN by (now destruct a).
    apply fold_add_NaN.
  - now apply IH.
Qed.

(** A vocabulary vector with an entry that is not finite has a
    [total_log_ppx] entry that is not finite, whatever the target. *)
Lemma fold_products_not_finite (v : list xreal) (x : Z) (s : nat) (a0 : xreal) :
  Exists (fun a => XReal.is_finite a = false) v ->
  XReal.is_finite
    (fold_left add
       (zip_with mul v (map (fun i => of_bool (Z.eqb x (Z.of_nat i)))
                            (seq s (length v))))
       a0) = false.
Proof.
  intros HE. revert s a0. induction HE as [a v Ha|a v _ IH]; intros s a0;
    cbn [length seq map zip_with fold_left].
  - apply fold_add_not_finite, add_not_finite_r.
    now apply mul_of_bool_not_finite.
  - apply IH.
Qed.

(** An entry that is not finite, away from the target id, makes the
    [total_log_ppx] entry of its position the NaN. *)
Lemma fold_products_NaN (v : list xreal) (x : Z) (s i : nat) (a0 : xreal) :
  (i < length v)%nat ->
  XReal.is_finite (nth i v (Fin 0)) = false ->
  x <> Z.of_nat (s + i) ->
  fold_left add
    (zip_with mul v (map (fun j => of_bool (Z.eqb x (Z.of_nat j)))
                         (seq s (length v))))
    a0 = NaN.
Proof.
  revert s i a0. induction v as [|a v IH]; intros s i a0 Hi Hn Hx;
    simpl in Hi; [lia|].
  cbn [length seq map zip_with fold_left]. destruct i as [|i].
  - cbn [nth] in Hn. rewrite Nat.add_0_r in Hx.
    destruct (Z.eqb_spec x (Z.of_nat s)) as [E|_]; [contradiction|].
    cbn [of_bool]. change (@zero xreal _) with (Fin 0).
    rewrite (mul_zero_not_finite _ Hn).
    replace (add a0 NaN) with NaN by (now destruct a0).
    apply fold_add_NaN.
  - cbn [nth] in Hn. apply (IH (S s) i); [lia | exact Hn|].
    replace (S s + i)%nat with (s + S i)%nat by lia. exact Hx.
Qed.

Lemma compute_masked_NaN (B T V : nat)
      (predictions : list (list (list xreal))) (targets : list (list Z))
      (b t : nat) :
  shape3 B T V predictions -> shape2 B T targets ->
  (b < B)%nat -> (t < T)%nat ->
  masked (vec_at predictions b t) (target_at targets b t) = NaN ->
  compute predictions targets = Ok (NaN, NaN).
Proof.
  intros H3 H2 Hb Ht Hm.
  pose proof (shapes_aligned H3 H2) as HA.
  pose proof (positions_In H3 H2 Hb Ht) as Hin.
  change (compute predictions targets = Ok (NaN, np_exp NaN)).
  apply compute_of_log_ppx. rewrite (log_ppx_aligned HA).
  assert (HS : np_sum (map (fun p => masked (fst p) (snd p))
                           (positions predictions targets)) = NaN).
  { apply fold_add_In_NaN. rewrite <- Hm.
    exact (in_map (fun p => masked (fst p) (snd p)) _ _ Hin). }
  rewrite HS. reflexivity.
Qed.

(** X10. Masking by multiplication does not neutralise a value that is
    not finite: if any entry of [predictions] at a pad position is an
    infinity or the NaN, the result is the pair (NaN, NaN). *)
Theorem X10_non_finite_under_padding (B T V : nat)
        (predictions : list (list (list xreal))) (targets : list (list Z))
        (b t : nat) (a : xreal) :
  shape3 B T V predictions -> shape2 B T targets ->
  (b < B)%nat -> (t < T)%nat ->
  target_at targets b t = pad_id ->
  In a (vec_at predictions b t) -> XReal.is_finite a = false ->
  compute predictions targets = Ok (NaN, NaN).
Proof.
  intros H3 H2 Hb Ht Hpad Hin Ha.
  apply (compute_masked_NaN H3 H2 Hb Ht).
  unfold masked. rewrite Hpad, (mask_Fin pad_id).
  change (mask_R pad_id) with 0.
  apply mul_zero_not_finite.
  unfold token_log_ppx, np_sum, one_hot.
  apply fold_products_not_finite. apply Exists_exists. now exists a.
Qed.

Lemma X10_witness :
  shape3 1 1 2 inf_predictions /\ shape2 1 1 [[0]]%Z /\
  compute inf_predictions [[0]]%Z = Ok (NaN, NaN).
Proof.
  assert (H3 : shape3 1 1 2 inf_predictions) by concrete.
  assert (H2 : shape2 1 1 [[0]]%Z) by concrete.
  split; [exact H3|]. split; [exact H2|].
  apply (@X10_non_finite_under_padding 1 1 2 inf_predictions [[0]]%Z
           0 0 NInf H3 H2).
  - lia.
  - lia.
  - reflexivity.
  - simpl. now left.
  - reflexivity.
Defined.

(** X11. The one-hot product does not neutralise it either: an entry of
    [predictions] that is not finite, at any position and at an index
    other than the target id, makes the result the pair (NaN, NaN). *)
Theorem X11_non_finite_off_target (B T V : nat)
        (predictions : list (list (list xreal))) (targets : list (list Z))
        (b t i : nat) :
  shape3 B T V predictions -> shape2 B T targets ->
  (b < B)%nat -> (t < T)%nat -> (i < V)%nat ->
  target_at targets b t <> Z.of_nat i ->
  XReal.is_finite (nth i (vec_at predictions b t) (Fin 0)) = false ->
  compute predictions targets = Ok (NaN, NaN).
Proof.
  intros H3 H2 Hb Ht Hi Hx Ha.
  apply (compute_masked_NaN H3 H2 Hb Ht).
  destruct (vec_at_shape H3 Hb Ht) as (HV & _ & _).
  unfold masked, token_log_ppx, np_sum, one_hot.
  rewrite (@fold_products_NaN (vec_at predictions b t)
             (target_at targets b t) 0 i zero);
    [reflexivity | lia | exact Ha | exact Hx].
Qed.

Lemma X11_witness :
  shape3 1 1 2 inf_predictions /\ shape2 1 1 inf_targets /\
  compute inf_predictions inf_targets = Ok (NaN, NaN).
Proof.
  assert (H3 : shape3 1 1 2 inf_predictions) by concrete.
  assert (H2 : shape2 1 1 inf_targets) by concrete.
  split; [exact H3|]. split; [exact H2|].
  apply (X11_non_finite_off_target (b := 0) (t := 0) (i := 0) H3 H2).
  - lia.
  - lia.
  - lia.
  - discriminate.
  - reflexivity.
Defined.

(** ** Bounds on the log-perplexity *)

Lemma Forall2_left {A B : Type} (Q : A -> Prop) (l : list A) (l' : list B) :
  Forall2 (fun x _ => Q x) l l' -> Forall Q l.
Proof. induction 1; constructor; assumption. Qed.

(** A property of every non-pad index pair holds of every token. *)
Lemma tokens_Forall_index {A : Type} (B T V : nat)
      (predictions : list (list (list A))) (targets : list (list Z))
      (Q : list A * Z -> Prop) :
  shape3 B T V predictions -> shape2 B T targets ->
  (forall b t, (b < B)%nat -> (t < T)%nat ->
               target_at targets b t <> pad_id ->
               Q (vec_at predictions b t, target_at targets b t)) ->
  Forall Q (tokens predictions targets).
Proof.
  intros H3 H2 HQ.
  assert (HP : Forall (fun p => is_token p = true -> Q p)
                      (positions predictions targets)).
  { apply Forall2_left with (l' := positions predictions targets).
    apply (positions_rel _ H3 H3 H2). intros b t Hb Ht.
    unfold is_token. simpl snd. intros Htok. apply HQ; try assumption.
    intros Hpad. rewrite Hpad in Htok. discriminate. }
  unfold tokens. rewrite Forall_forall in *. intros p Hp.
  apply filter_In in Hp. destruct Hp as [Hin Htok]. now apply HP.
Qed.

Lemma Rsum_le_bound {A : Type} (f : A -> R) (l : list A) (hi : R) :
  Forall (fun p => f p <= hi) l -> Rsum (map f l) <= INR (length l) * hi.
Proof.
  induction 1 as [|p l Hp _ IH]; [simpl; lra|].
  cbn [map length]. rewrite Rsum_cons, S_INR. lra.
Qed.

Lemma Rsum_ge_bound {A : Type} (f : A -> R) (l : list A) (lo : R) :
  Forall (fun p => lo <= f p) l -> INR (length l) * lo <= Rsum (map f l).
Proof.
  induction 1 as [|p l Hp _ IH]; [simpl; lra|].
  cbn [map length]. rewrite Rsum_cons, S_INR. lra.
Qed.

Lemma mean_nll_ge (B T V : nat)
      (predictions : list (list (list xreal))) (targets : list (list Z))
      (hi : R) :
  shape3 B T V predictions -> shape2 B T targets ->
  (0 < non_pad_count targets)%nat ->
  Forall (fun p => gather_R p <= hi) (tokens predictions targets) ->
  - hi <= mean_nll predictions targets.
Proof.
  intros H3 H2 Hn HF. apply Rsum_le_bound in HF.
  rewrite (length_tokens (shapes_aligned H3 H2)) in HF.
  unfold mean_nll, gather_total.
  assert (Hpos : 0 < INR (non_pad_count targets)) by (apply lt_0_INR; lia).
  apply Ropp_le_contravar.
  replace hi with (INR (non_pad_count targets) * hi
                   / INR (non_pad_count targets)) by (field; lra).
  unfold Rdiv. apply Rmult_le_compat_r; [|exact HF].
  left. now apply Rinv_0_lt_compat.
Qed.

Lemma mean_nll_le (B T V : nat)
      (predictions : list (list (list xreal))) (targets : list (list Z))
      (lo : R) :
  shape3 B T V predictions -> shape2 B T targets ->
  (0 < non_pad_count targets)%nat ->
  Forall (fun p => lo <= gather_R p) (tokens predictions targets) ->
  mean_nll predictions targets <= - lo.
Proof.
  intros H3 H2 Hn HF. apply Rsum_ge_bound in HF.
  rewrite (length_tokens (shapes_aligned H3 H2)) in HF.
  unfold mean_nll, gather_total.
  assert (Hpos : 0 < INR (non_pad_count targets)) by (apply lt_0_INR; lia).
  apply Ropp_le_contravar.
  replace lo with (INR (non_pad_count targets) * lo
                   / INR (non_pad_count targets)) by (field; lra).
  unfold Rdiv. apply Rmult_le_compat_r; [|exact HF].
  left. now apply Rinv_0_lt_compat.
Qed.

Lemma exp_le_mono (x y : R) : x <= y -> exp x <= exp y.
Proof.
  intros [Hlt|Heq]; [left; now apply exp_increasing | right; now rewrite Heq].
Qed.

(** X12. In exact arithmetic (on [xreal]: no rounding, no overflow): on
    a valid batch with at least one non-pad token, if every true-class
    log-probability at a non-pad position lies in [lo, hi], the
    log-perplexity lies in [-hi, -lo] and the perplexity in
    [exp (-hi), exp (-lo)].  In binary32 the rounded mean can fall just
    outside (see [binary32_mean_is_rounded]) and a sum can overflow. *)
Theorem X12_log_ppx_between_bounds (B T V : nat)
        (predictions : list (list (list xreal))) (targets : list (list Z))
        (lo hi : R) :
  valid_batch B T V predictions targets ->
  (0 < non_pad_count targets)%nat ->
  (forall b t, (b < B)%nat -> (t < T)%nat ->
               target_at targets b t <> pad_id ->
               lo <= XReal.to_R (true_log_prob predictions targets b t) <= hi) ->
  exists l,
    compute predictions targets = Ok (Fin l, Fin (exp l)) /\
    - hi <= l <= - lo /\ exp (- hi) <= exp l <= exp (- lo).
Proof.
  intros HV Hn Hb. exists (mean_nll predictions targets).
  split; [exact (compute_valid HV Hn)|].
  destruct HV as (H3 & H2 & _).
  assert (Hhi : - hi <= mean_nll predictions targets).
  { apply (mean_nll_ge H3 H2 Hn).
    apply (tokens_Forall_index _ H3 H2). intros b t Hb' Ht Hx.
    exact (proj2 (Hb b t Hb' Ht Hx)). }
  assert (Hlo : mean_nll predictions targets <= - lo).
  { apply (mean_nll_le H3 H2 Hn).
    apply (tokens_Forall_index _ H3 H2). intros b t Hb' Ht Hx.
    exact (proj1 (Hb b t Hb' Ht Hx)). }
  repeat split; try assumption; now apply exp_le_mono.
Qed.

Lemma X12_witness :
  valid_batch 1 3 4 sample_predictions sample_targets /\
  exists l,
    compute sample_predictions sample_targets = Ok (Fin l, Fin (exp l)) /\
    - (-1) <= l <= - (-2) /\ exp (- (-1)) <= exp l <= exp (- (-2)).
Proof.
  assert (HV : valid_batch 1 3 4 sample_predictions sample_targets)
    by concrete.
  split; [exact HV|].
  apply (X12_log_ppx_between_bounds HV).
  - vm_compute. lia.
  - sample_position b t Hb Ht; intros Hx; simpl; try lra.
    now elim Hx.
Defined.

(** X13. Log-probabilities are at most 0: on a valid batch with at least
    one non-pad token whose true-class entries at the non-pad positions
    are at most 0, the log-perplexity is at least 0 and the perplexity
    at least 1. *)
Theorem X13_perplexity_at_least_one (B T V : nat)
        (predictions : list (list (list xreal))) (targets : list (list Z)) :
  valid_batch B T V predictions targets ->
  (0 < non_pad_count targets)%nat ->
  (forall b t, (b < B)%nat -> (t < T)%nat ->
               target_at targets b t <> pad_id ->
               XReal.to_R (true_log_prob predictions targets b t) <= 0) ->
  exists l pp,
    compute predictions targets = Ok (Fin l, Fin pp) /\ 0 <= l /\ 1 <= pp.
Proof.
  intros HV Hn Hb.
  exists (mean_nll predictions targets), (exp (mean_nll predictions targets)).
  split; [exact (compute_valid HV Hn)|].
  destruct HV as (H3 & H2 & _).
  assert (Hhi : - 0 <= mean_nll predictions targets).
  { apply (mean_nll_ge H3 H2 Hn).
    apply (tokens_Forall_index _ H3 H2). intros b t Hb' Ht Hx.
    exact (Hb b t Hb' Ht Hx). }
  rewrite Ropp_0 in Hhi. split; [exact Hhi|].
  rewrite <- exp_0. now apply exp_le_mono.
Qed.

Lemma X13_witness :
  valid_batch 1 3 4 sample_predictions sample_targets /\
  exists l pp,
    compute sample_predictions sample_targets = Ok (Fin l, Fin pp) /\
    0 <= l /\ 1 <= pp.
Proof.
  assert (HV : valid_batch 1 3 4 sample_predictions sample_targets)
    by concrete.
  split; [exact HV|].
  apply (X13_perplexity_at_least_one HV).
  - vm_compute. lia.
  - sample_position b t Hb Ht; intros Hx; simpl; lra.
Defined.

(** X14. In exact arithmetic (on [xreal]: no rounding, no overflow): on
    a valid batch with at least one non-pad token in which every
    non-pad position gives its true class the same log-probability [c],
    the log-perplexity is [-c] and the perplexity [exp (-c)], whatever
    the number of tokens: a model that spreads its mass evenly over [V]
    classes ([c = - ln V]) has perplexity [V].  In binary32 the sum and
    the quotient round, and the result can miss [-c] by a unit in the
    last place (see [binary32_mean_is_rounded]). *)
Theorem X14_constant_log_prob (B T V : nat)
        (predictions : list (list (list xreal))) (targets : list (list Z))
        (c : R) :
  valid_batch B T V predictions targets ->
  (0 < non_pad_count targets)%nat ->
  (forall b t, (b < B)%nat -> (t < T)%nat ->
               target_at targets b t <> pad_id ->
               XReal.to_R (true_log_prob predictions targets b t) = c) ->
  compute predictions targets = Ok (Fin (- c), Fin (exp (- c))).
Proof.
  intros HV Hn Hb. rewrite (compute_valid HV Hn).
  destruct HV as (H3 & H2 & _).
  assert (E : mean_nll predictions targets = - c).
  { apply Rle_antisym.
    - apply (mean_nll_le H3 H2 Hn).
      apply (tokens_Forall_index _ H3 H2). intros b t Hb' Ht Hx.
      right. symmetry. exact (Hb b t Hb' Ht Hx).
    - apply (mean_nll_ge H3 H2 Hn).
      apply (tokens_Forall_index _ H3 H2). intros b t Hb' Ht Hx.
      right. exact (Hb b t Hb' Ht Hx). }
  now rewrite E.
Qed.

Lemma X14_witness :
  valid_batch 1 3 4 sample_predictions [[1; 0; 0]]%Z /\
  compute sample_predictions [[1; 0; 0]]%Z
  = Ok (Fin (- (-1)), Fin (exp (- (-1)))).
Proof.
  assert (HV : valid_batch 1 3 4 sample_predictions [[1; 0; 0]]%Z)
    by concrete.
  split; [exact HV|].
  apply (X14_constant_log_prob HV).
  - vm_compute. lia.
  - sample_position b t Hb Ht; intros Hx; simpl; try reflexivity;
      now elim Hx.
Defined.

Local Close Scope R_scope.

(** ** Longer padding and larger batches *)

Section Padding.
Context {T : Type} `{Numeric T}.

Lemma zip_with_app {A B C : Type} (f : A -> B -> C)
      (xs xs' : list A) (ys ys' : list B) :
  length xs = length ys ->
  zip_with f (xs ++ xs') (ys ++ ys')
  = zip_with f xs ys ++ zip_with f xs' ys'.
Proof.
  revert ys. induction xs as [|x xs IH]; intros [|y ys] E; simpl in *;
    try discriminate; [reflexivity|].
  f_equal. apply IH. congruence.
Qed.

Lemma length_zip_with {A B C : Type} (f : A -> B -> C)
      (xs : list A) (ys : list B) :
  length xs = length ys -> length (zip_with f xs ys) = length xs.
Proof.
  revert ys. induction xs as [|x xs IH]; intros [|y ys] E; simpl in *;
    try discriminate; [reflexivity|].
  f_equal. apply IH. congruence.
Qed.

Lemma Forall_zip_with_app {A : Type} (Q R1 R2 : list A -> Prop)
      (xs ys : list (list A)) :
  (forall x y, R1 x -> R2 y -> Q (x ++ y)) ->
  Forall R1 xs -> Forall R2 ys -> Forall Q (zip_with (@app A) xs ys).
Proof.
  intros HQ H1. revert ys. induction H1 as [|x xs Hx _ IH];
    intros [|y ys] H2; simpl; constructor.
  - apply HQ; [exact Hx | now inversion H2].
  - apply IH. now inversion H2.
Qed.

Lemma filter_pad_positions (prow : list (list T)) (k : nat) :
  filter is_token (zip_with pair prow (repeat pad_id k)) = [].
Proof.
  revert k. induction prow as [|v prow IH]; intros [|k]; simpl;
    try reflexivity.
  apply IH.
Qed.

(** Right-padding adds no token. *)
Lemma tokens_pad_right (predictions pad : list (list (list T)))
      (targets : list (list Z)) (k : nat) :
  Forall2 (fun (row : list (list T)) (trow : list Z) =>
             length row = length trow) predictions targets ->
  length pad = length predictions ->
  tokens (pad_right_predictions predictions pad) (pad_right_targets k targets)
  = tokens predictions targets.
Proof.
  unfold tokens, positions, pad_right_predictions, pad_right_targets.
  intros HF. revert pad.
  induction HF as [|row trow rest trest Hrow _ IH]; intros [|prow pad] HL;
    simpl in HL; try discriminate; [reflexivity|].
  cbn [zip_with map concat]. rewrite !filter_app.
  rewrite (zip_with_app pair row prow trow (repeat pad_id k) Hrow).
  rewrite filter_app, filter_pad_positions, app_nil_r.
  f_equal. apply IH. congruence.
Qed.

Lemma pad_right_shape3 (B T' k V : nat)
      (predictions pad : list (list (list T))) :
  shape3 B T' V predictions -> shape3 B k V pad ->
  shape3 B (T' + k) V (pad_right_predictions predictions pad).
Proof.
  intros [HB HP] [HB' HP']. unfold pad_right_predictions. split.
  - rewrite length_zip_with; congruence.
  - eapply Forall_zip_with_app; [|exact HP|exact HP'].
    intros x y [Hx Fx] [Hy Fy]. split.
    + rewrite length_app. congruence.
    + apply Forall_app. now split.
Qed.

Lemma pad_right_shape2 (B T' k : nat) (targets : list (list Z)) :
  shape2 B T' targets -> shape2 B (T' + k) (pad_right_targets k targets).
Proof.
  intros [HB HT]. unfold pad_right_targets. split.
  - now rewrite length_map.
  - apply Forall_map. eapply Forall_impl; [|exact HT].
    intros row Hrow. simpl. rewrite length_app, repeat_length. congruence.
Qed.

Lemma pad_right_Forall (Q : list T -> Prop)
      (predictions pad : list (list (list T))) :
  Forall (Forall Q) predictions -> Forall (Forall Q) pad ->
  Forall (Forall Q) (pad_right_predictions predictions pad).
Proof.
  intros HP HP'. unfold pad_right_predictions.
  eapply Forall_zip_with_app; [|exact HP|exact HP'].
  intros x y Hx Hy. apply Forall_app. now split.
Qed.

Lemma aligned_lengths (n : nat)
      (predictions : list (list (list T))) (targets : list (list Z)) :
  aligned n predictions targets ->
  Forall2 (fun (row : list (list T)) (trow : list Z) =>
             length row = length trow) predictions targets.
Proof.
  intros HA. eapply Forall2_impl; [|exact HA]. intros row trow Hrow.
  eapply Forall2_length; exact Hrow.
Qed.

(** The positions of two batches put one after the other. *)
Lemma positions_app (p1 p2 : list (list (list T))) (t1 t2 : list (list Z)) :
  length p1 = length t1 ->
  positions (p1 ++ p2) (t1 ++ t2) = positions p1 t1 ++ positions p2 t2.
Proof.
  intros E. unfold positions. now rewrite zip_with_app, concat_app.
Qed.

Lemma tokens_app (p1 p2 : list (list (list T))) (t1 t2 : list (list Z)) :
  length p1 = length t1 ->
  tokens (p1 ++ p2) (t1 ++ t2) = tokens p1 t1 ++ tokens p2 t2.
Proof.
  intros E. unfold tokens. now rewrite positions_app, filter_app.
Qed.

Lemma shape3_app (B1 B2 T' V : nat) (p1 p2 : list (list (list T))) :
  shape3 B1 T' V p1 -> shape3 B2 T' V p2 -> shape3 (B1 + B2) T' V (p1 ++ p2).
Proof.
  intros [HB1 HP1] [HB2 HP2]. split.
  - rewrite length_app. congruence.
  - apply Forall_app. now split.
Qed.

Lemma shape2_app (B1 B2 T' : nat) (t1 t2 : list (list Z)) :
  shape2 B1 T' t1 -> shape2 B2 T' t2 -> shape2 (B1 + B2) T' (t1 ++ t2).
Proof.
  intros [HB1 HP1] [HB2 HP2]. split.
  - rewrite length_app. congruence.
  - apply Forall_app. now split.
Qed.

Lemma non_pad_count_app (t1 t2 : list (list Z)) :
  non_pad_count (t1 ++ t2) = (non_pad_count t1 + non_pad_count t2)%nat.
Proof.
  unfold non_pad_count. now rewrite concat_app, filter_app, length_app.
Qed.

Lemma zip_with_repeat_r {A B C : Type} (f : A -> B -> C)
      (xs : list A) (y : B) (k : nat) :
  length xs = k -> zip_with f xs (repeat y k) = map (fun x => f x y) xs.
Proof.
  intros <-. induction xs as [|x xs IH]; simpl; [reflexivity|].
  now rewrite IH.
Qed.

(** [real_log_ppx] of a right-padded batch: every row gains the masked
    values of the new positions. *)
Lemma real_log_ppx_pad_right (B T' k V : nat)
      (predictions pad : list (list (list T))) (targets : list (list Z)) :
  shape3 B T' V predictions -> shape2 B T' targets -> shape3 B k V pad ->
  real_log_ppx (pad_right_predictions predictions pad)
               (pad_right_targets k targets)
  = Ok (zip_with (@app T) (zip_with (zip_with masked) predictions targets)
                 (map (map (fun v => masked v pad_id)) pad)).
Proof.
  intros H3 H2 H3'.
  rewrite (real_log_ppx_aligned
             (shapes_aligned (pad_right_shape3 H3 H3')
                             (pad_right_shape2 k H2))).
  f_equal.
  pose proof (aligned_lengths (shapes_aligned H3 H2)) as HL.
  assert (HB : length pad = length predictions)
    by (destruct H3 as [-> _]; apply H3').
  assert (HK : Forall (fun prow : list (list T) => length prow = k) pad).
  { destruct H3' as [_ HP]. eapply Forall_impl; [|exact HP].
    now intros prow [Hk _]. }
  clear - HL HB HK. unfold pad_right_predictions, pad_right_targets.
  revert pad HB HK.
  induction HL as [|row trow rest trest Hrow _ IH]; intros [|prow pad] HB HK;
    simpl in HB; try discriminate; [reflexivity|].
  cbn [zip_with map]. f_equal.
  - rewrite (zip_with_app masked row prow trow (repeat pad_id k) Hrow).
    f_equal. apply zip_with_repeat_r. now inversion HK.
  - apply IH; [congruence | now inversion HK].
Qed.

Lemma non_pad_pad_right (k : nat) (targets : list (list Z)) :
  non_pad (pad_right_targets k targets)
  = map (fun row => row ++ repeat (mask pad_id) k) (non_pad targets).
Proof.
  unfold non_pad, pad_right_targets. rewrite !map_map.
  apply map_ext. intros row. now rewrite map_app, map_repeat.
Qed.

End Padding.

Local Open Scope R_scope.

(** X15. Padding every sequence further to the right, with any finite
    predictions at the new positions and the pad id as their target,
    changes neither the log-perplexity nor the perplexity. *)
Theorem X15_right_padding_changes_nothing (B T V k : nat)
        (predictions pad : list (list (list xreal)))
        (targets : list (list Z)) :
  shape3 B T V predictions -> shape2 B T targets -> finite3 predictions ->
  shape3 B k V pad -> finite3 pad ->
  compute (pad_right_predictions predictions pad)
          (pad_right_targets k targets)
  = compute predictions targets.
Proof.
  intros H3 H2 HF H3' HF'.
  pose proof (shapes_aligned H3 H2) as HA.
  pose proof (pad_right_shape3 H3 H3') as H3p.
  pose proof (pad_right_shape2 k H2) as H2p.
  pose proof (shapes_aligned H3p H2p) as HAp.
  assert (HL : length pad = length predictions)
    by (destruct H3 as [-> _]; apply H3').
  pose proof (tokens_pad_right pad k (aligned_lengths HA) HL) as Etok.
  rewrite (compute_finite H3p H2p (pad_right_Forall HF HF')).
  rewrite (compute_finite H3 H2 HF). cbv zeta.
  rewrite <- (length_tokens HAp), <- (length_tokens HA).
  now rewrite Etok.
Qed.

Lemma X15_witness :
  shape3 1 3 4 sample_predictions /\ shape2 1 3 sample_targets /\
  compute (pad_right_predictions sample_predictions
             [[[Fin 1; Fin 2; Fin 3; Fin 4]; [Fin 0; Fin 0; Fin 0; Fin 0]]])
          (pad_right_targets 2 sample_targets)
  = compute sample_predictions sample_targets.
Proof.
  assert (H3 : shape3 1 3 4 sample_predictions) by concrete.
  assert (H2 : shape2 1 3 sample_targets) by concrete.
  split; [exact H3|]. split; [exact H2|].
  apply (X15_right_padding_changes_nothing H3 H2); concrete.
Defined.

(** X16. In binary32, bit for bit and whatever the order of the sums:
    padding every sequence further to the right, with well-formed
    finite predictions at the new positions, changes the two arrays
    that the last cell sums by appending entries to every row only,
    zeros (of either sign) to [real_log_ppx] and +0.0 to [non_pad]. *)
Theorem X16_binary32_right_padding_appends_zeros (B T V k : nat)
        (predictions pad : list (list (list Binary32.float32)))
        (targets : list (list Z)) :
  shape3 B T V predictions -> shape2 B T targets ->
  shape3 B k V pad -> f32_valid3 pad ->
  exists r z,
    real_log_ppx predictions targets = Ok r /\
    real_log_ppx (pad_right_predictions predictions pad)
                 (pad_right_targets k targets)
    = Ok (zip_with (@app Binary32.float32) r z) /\
    array_shape2 B k z /\
    Forall (Forall (fun a => Binary32.is_zero a = true)) z /\
    non_pad (pad_right_targets k targets)
    = map (fun row => row ++ repeat (S754_zero false) k)
          (non_pad (T := Binary32.float32) targets).
Proof.
  intros H3 H2 H3' HF'.
  exists (zip_with (zip_with masked) predictions targets),
         (map (map (fun v => masked v pad_id)) pad).
  split; [exact (real_log_ppx_aligned (shapes_aligned H3 H2))|].
  split; [exact (real_log_ppx_pad_right H3 H2 H3')|].
  split.
  { destruct H3' as [HB HP]. split; [now rewrite length_map|].
    apply Forall_map. eapply Forall_impl; [|exact HP].
    intros prow [Hk _]. simpl. now rewrite length_map. }
  split; [|exact (non_pad_pad_right k targets)].
  apply Forall_map. eapply Forall_impl; [|exact HF'].
  intros prow Hprow. simpl. apply Forall_map.
  eapply Forall_impl; [|exact Hprow].
  intros v Hv. simpl. unfold masked.
  apply binary32_mul_zero_is_zero. now apply binary32_token_finite.
Qed.

Lemma X16_witness :
  shape3 1 3 4 f32_sample_predictions /\ shape2 1 3 sample_targets /\
  exists r z,
    real_log_ppx f32_sample_predictions sample_targets = Ok r /\
    real_log_ppx (pad_right_predictions f32_sample_predictions
                    (Binary32.of_Z3 [[[1; 2; 3; 4]; [0; 0; 0; 0]]]%Z))
                 (pad_right_targets 2 sample_targets)
    = Ok (zip_with (@app Binary32.float32) r z) /\
    array_shape2 1 2 z /\
    Forall (Forall (fun a => Binary32.is_zero a = true)) z /\
    non_pad (pad_right_targets 2 sample_targets)
    = map (fun row => row ++ repeat (S754_zero false) 2)
          (non_pad (T := Binary32.float32) sample_targets).
Proof.
  assert (H3 : shape3 1 3 4 f32_sample_predictions) by concrete.
  assert (H2 : shape2 1 3 sample_targets) by concrete.
  split; [exact H3|]. split; [exact H2|].
  apply (X16_binary32_right_padding_appends_zeros H3 H2); concrete.
Defined.

Lemma Rsum_app (l l' : list R) : Rsum (l ++ l') = Rsum l + Rsum l'.
Proof.
  induction l as [|x l IH].
  - change (Rsum l' = 0 + Rsum l'). lra.
  - change (Rsum (x :: (l ++ l')) = Rsum (x :: l) + Rsum l').
    rewrite !Rsum_cons, IH. lra.
Qed.

Lemma log_ppx_finite (B T V : nat)
      (predictions : list (list (list xreal))) (targets : list (list Z)) :
  shape3 B T V predictions -> shape2 B T targets -> finite3 predictions ->
  (0 < non_pad_count targets)%nat ->
  log_ppx predictions targets
  = Ok (Fin (- (Rsum (map one_hot_R (tokens predictions targets))
                / INR (non_pad_count targets)))).
Proof.
  intros H3 H2 HF Hn. pose proof (shapes_aligned H3 H2) as HA.
  rewrite (log_ppx_flat HA (positions_finite targets HF)).
  rewrite (length_tokens HA). f_equal. apply neg_div_Fin.
  apply not_0_INR. lia.
Qed.

(** X17. In exact arithmetic (on [xreal]: no rounding, no overflow): of
    two batches put one after the other, the log-perplexity is the mean
    of the two log-perplexities weighted by the numbers of non-pad
    tokens.  In binary32 each of the three is rounded on its own and
    the identity holds up to rounding only. *)
Theorem X17_batches_combine_by_token_count (B1 B2 T V : nat)
        (p1 p2 : list (list (list xreal))) (t1 t2 : list (list Z)) :
  shape3 B1 T V p1 -> shape2 B1 T t1 -> finite3 p1 ->
  shape3 B2 T V p2 -> shape2 B2 T t2 -> finite3 p2 ->
  (0 < non_pad_count t1)%nat -> (0 < non_pad_count t2)%nat ->
  exists l1 l2,
    log_ppx p1 t1 = Ok (Fin l1) /\ log_ppx p2 t2 = Ok (Fin l2) /\
    log_ppx (p1 ++ p2) (t1 ++ t2)
    = Ok (Fin ((INR (non_pad_count t1) * l1 + INR (non_pad_count t2) * l2)
               / INR (non_pad_count t1 + non_pad_count t2))).
Proof.
  intros H3 H2 HF H3' H2' HF' Hn Hn'.
  do 2 eexists.
  split; [exact (log_ppx_finite H3 H2 HF Hn)|].
  split; [exact (log_ppx_finite H3' H2' HF' Hn')|].
  assert (HFa : finite3 (p1 ++ p2)) by (apply Forall_app; now split).
  rewrite (log_ppx_finite (shape3_app H3 H3') (shape2_app H2 H2') HFa)
    by (rewrite non_pad_count_app; lia).
  assert (HL : length p1 = length t1)
    by (destruct H3 as [-> _]; symmetry; apply H2).
  rewrite tokens_app by exact HL.
  rewrite map_app, Rsum_app, non_pad_count_app.
  do 2 f_equal. rewrite plus_INR.
  assert (N1 : INR (non_pad_count t1) <> 0) by (apply not_0_INR; lia).
  assert (N2 : INR (non_pad_count t2) <> 0) by (apply not_0_INR; lia).
  assert (N : INR (non_pad_count t1) + INR (non_pad_count t2) <> 0).
  { rewrite <- plus_INR. apply not_0_INR. lia. }
  field. repeat split; assumption.
Qed.

Lemma X17_witness :
  shape3 1 3 4 sample_predictions /\ shape3 1 3 4 sample_worse /\
  exists l1 l2,
    log_ppx sample_predictions sample_targets = Ok (Fin l1) /\
    log_ppx sample_worse [[1; 0; 0]]%Z = Ok (Fin l2) /\
    log_ppx (sample_predictions ++ sample_worse)
            (sample_targets ++ [[1; 0; 0]]%Z)
    = Ok (Fin ((INR (non_pad_count sample_targets) * l1
                + INR (non_pad_count [[1; 0; 0]]%Z) * l2)
               / INR (non_pad_count sample_targets
                      + non_pad_count [[1; 0; 0]]%Z))).
Proof.
  assert (H3 : shape3 1 3 4 sample_predictions) by concrete.
  assert (H3' : shape3 1 3 4 sample_worse) by concrete.
  split; [exact H3|]. split; [exact H3'|].
  apply (X17_batches_combine_by_token_count (B1 := 1) (B2 := 1) (T := 3)
           (V := 4)); try (vm_compute; lia); concrete.
Defined.

(** ** Predictions shifted by a constant *)

Lemma positions_map_l {A A' : Type} (f : list A -> list A')
      (predictions : list (list (list A))) (targets : list (list Z)) :
  positions (map (map f) predictions) targets
  = map (fun p => (f (fst p), snd p)) (positions predictions targets).
Proof.
  unfold positions. revert targets.
  induction predictions as [|row rest IH]; intros [|trow trest]; simpl;
    try reflexivity.
  rewrite map_app, IH. f_equal.
  clear. revert trow. induction row as [|v row IHr]; intros [|x trow]; simpl;
    try reflexivity.
  now rewrite IHr.
Qed.

Lemma tokens_map_l {A A' : Type} (f : list A -> list A')
      (predictions : list (list (list A))) (targets : list (list Z)) :
  tokens (map (map f) predictions) targets
  = map (fun p => (f (fst p), snd p)) (tokens predictions targets).
Proof.
  unfold tokens. rewrite positions_map_l.
  induction (positions predictions targets) as [|[v x] l IH];
    [reflexivity|].
  cbn [map filter fst snd].
  change (is_token (f v, x)) with (is_token (v, x)).
  destruct (is_token (v, x)); cbn [map fst snd]; now rewrite IH.
Qed.

Lemma shape3_map {A A' : Type} (g : A -> A') (B T V : nat)
      (predictions : list (list (list A))) :
  shape3 B T V predictions -> shape3 B T V (map (map (map g)) predictions).
Proof.
  intros [HB HP]. split; [now rewrite length_map|].
  apply Forall_map. eapply Forall_impl; [|exact HP].
  intros row [HT HV]. simpl. split; [now rewrite length_map|].
  apply Forall_map. eapply Forall_impl; [|exact HV].
  intros v Hv. simpl. now rewrite length_map.
Qed.

Lemma finite3_shift (c : R) (predictions : list (list (list xreal))) :
  finite3 predictions ->
  finite3 (map (map (map (fun a => add a (Fin c)))) predictions).
Proof.
  intros HF. apply Forall_map. eapply Forall_impl; [|exact HF].
  intros row Hrow. simpl. apply Forall_map.
  eapply Forall_impl; [|exact Hrow].
  intros v Hv. simpl. apply Forall_map. eapply Forall_impl; [|exact Hv].
  intros a Ha. simpl. destruct a; try discriminate. reflexivity.
Qed.

Lemma gather_R_shift (c : R) (v : list xreal) (x : Z) :
  finite_vec v -> in_range x (length v) = true ->
  gather_R (map (fun a => add a (Fin c)) v, x) = gather_R (v, x) + c.
Proof.
  intros Hv Hx. unfold gather_R, in_range in *. simpl fst; simpl snd.
  apply andb_prop in Hx. destruct Hx as [H0 H1].
  apply Z.leb_le in H0. apply Z.ltb_lt in H1.
  assert (Hi : (Z.to_nat x < length v)%nat) by lia.
  set (g := fun a : xreal => add a (Fin c)).
  rewrite (nth_indep (map g v) (Fin 0) (g (Fin 0)))
    by (now rewrite length_map).
  rewrite map_nth. unfold g.
  assert (Hf : XReal.is_finite (nth (Z.to_nat x) v (Fin 0)) = true).
  { unfold finite_vec in Hv. rewrite Forall_forall in Hv.
    apply Hv. now apply nth_In. }
  destruct (nth (Z.to_nat x) v (Fin 0)); try discriminate. reflexivity.
Qed.

Lemma Rsum_shift {A : Type} (f : A -> R) (c : R) (l : list A) :
  Rsum (map (fun p => f p + c) l) = Rsum (map f l) + INR (length l) * c.
Proof.
  induction l as [|p l IH]; [simpl; unfold Rsum; simpl; lra|].
  cbn [map length]. rewrite !Rsum_cons, IH, S_INR. lra.
Qed.

(** The sum of the true-class entries of shifted predictions. *)
Lemma gather_total_shift (B T V : nat)
      (predictions : list (list (list xreal))) (targets : list (list Z))
      (c : R) :
  valid_batch B T V predictions targets ->
  gather_total (map (map (map (fun a => add a (Fin c)))) predictions) targets
  = gather_total predictions targets + INR (non_pad_count targets) * c.
Proof.
  intros (H3 & H2 & HF & HR). unfold gather_total.
  rewrite tokens_map_l, map_map.
  rewrite <- (length_tokens (shapes_aligned H3 H2)).
  rewrite <- Rsum_shift. f_equal. apply map_ext_in.
  intros [v x] Hin. simpl fst; simpl snd.
  unfold tokens in Hin. apply filter_In in Hin. destruct Hin as [Hin _].
  pose proof (positions_finite targets HF) as F.
  pose proof (positions_in_range H3 HR) as R'.
  rewrite Forall_forall in F, R'.
  apply gather_R_shift; [exact (F _ Hin) | exact (R' _ Hin)].
Qed.

(** X18. In exact arithmetic (on [xreal]: no rounding, no overflow) the
    computation is linear in the predictions: on a valid batch with at
    least one non-pad token, adding a constant [c] to every entry of
    [predictions] lowers the log-perplexity by [c] and multiplies the
    perplexity by [exp (-c)].  In binary32 the shifted entries are
    rounded and the identity holds up to rounding only. *)
Theorem X18_shifted_predictions (B T V : nat)
        (predictions : list (list (list xreal))) (targets : list (list Z))
        (c : R) :
  valid_batch B T V predictions targets ->
  (0 < non_pad_count targets)%nat ->
  exists l,
    compute predictions targets = Ok (Fin l, Fin (exp l)) /\
    compute (map (map (map (fun a => add a (Fin c)))) predictions) targets
    = Ok (Fin (l - c), Fin (exp l * exp (- c))).
Proof.
  intros HV Hn. exists (mean_nll predictions targets).
  split; [exact (compute_valid HV Hn)|].
  assert (HV' : valid_batch B T V
                  (map (map (map (fun a => add a (Fin c)))) predictions)
                  targets).
  { destruct HV as (H3 & H2 & HF & HR).
    split; [now apply shape3_map|]. split; [exact H2|].
    split; [now apply finite3_shift | exact HR]. }
  rewrite (compute_valid HV' Hn).
  assert (E : mean_nll (map (map (map (fun a => add a (Fin c)))) predictions)
                       targets
              = mean_nll predictions targets - c).
  { unfold mean_nll. rewrite (gather_total_shift c HV).
    field. apply not_0_INR. lia. }
  rewrite E. unfold Rminus. now rewrite exp_plus.
Qed.

Lemma X18_witness :
  valid_batch 1 3 4 sample_predictions sample_targets /\
  exists l,
    compute sample_predictions sample_targets = Ok (Fin l, Fin (exp l)) /\
    compute (map (map (map (fun a => add a (Fin 2)))) sample_predictions)
            sample_targets
    = Ok (Fin (l - 2), Fin (exp l * exp (- 2))).
Proof.
  assert (HV : valid_batch 1 3 4 sample_predictions sample_targets)
    by concrete.
  split; [exact HV|].
  apply (X18_shifted_predictions 2 HV). vm_compute. lia.
Defined.

Local Close Scope R_scope.

(** ** Reading one position of [reshaped_targets] *)

Section Reading.
Context {T : Type} `{Numeric T}.

(** X19. [reshaped_targets[b,t,:]] is the one-hot row of [targets[b,t]],
    of the requested width. *)
Theorem X19_reshaped_targets_at (B T' n : nat) (targets : list (list Z))
        (b t : nat) :
  shape2 B T' targets -> (b < B)%nat -> (t < T')%nat ->
  vec_at (reshaped_targets targets n) b t
  = one_hot (target_at targets b t) n.
Proof.
  intros [HB HT] Hb Ht. unfold vec_at, target_at, reshaped_targets.
  set (g := fun x : Z => one_hot x n).
  change (@nil (list T)) with (map g (@nil Z)).
  rewrite map_nth.
  assert (Hrow : length (nth b targets []) = T').
  { rewrite Forall_forall in HT. apply HT, nth_In. lia. }
  rewrite (nth_indep (map g (nth b targets [])) [] (g 0%Z))
    by (rewrite length_map; lia).
  now rewrite map_nth.
Qed.

End Reading.

Lemma X19_witness :
  shape2 1 3 sample_targets /\
  vec_at (reshaped_targets (T := xreal) sample_targets 4) 0 1
  = one_hot (target_at sample_targets 0 1) 4.
Proof.
  assert (H2 : shape2 1 3 sample_targets) by concrete.
  split; [exact H2|].
  apply (X19_reshaped_targets_at 4 H2); lia.
Defined.

(** ** Reordering the sequences, for any scalar type *)

Section Reordering.
Context {T : Type} `{Numeric T}.

(** X21. For any scalar type, bit for bit: applying one permutation of
    the batch indices to the rows of [predictions] and of [targets]
    permutes the entries of [real_log_ppx] and of [non_pad]; the two
    sums of the last cell add the same terms, in another order. *)
Theorem X21_reordering_permutes_the_summands (B T' V : nat)
        (predictions : list (list (list T))) (targets : list (list Z))
        (sigma : list nat) :
  shape3 B T' V predictions -> shape2 B T' targets ->
  Permutation sigma (seq 0 B) ->
  exists r r',
    real_log_ppx predictions targets = Ok r /\
    real_log_ppx (permute_rows sigma predictions)
                 (permute_rows sigma targets) = Ok r' /\
    Permutation (concat r') (concat r) /\
    Permutation (concat (non_pad (T := T) (permute_rows sigma targets)))
                (concat (non_pad (T := T) targets)).
Proof.
  intros [HB H3] [HB' H2] HP.
  assert (HPp : Permutation sigma (seq 0 (length predictions)))
    by now rewrite HB.
  assert (HPt : Permutation sigma (seq 0 (length targets)))
    by now rewrite HB'.
  assert (H3' : shape3 B T' V (permute_rows sigma predictions)).
  { split; [now rewrite permute_rows_length|].
    now apply permute_rows_Forall. }
  assert (H2' : shape2 B T' (permute_rows sigma targets)).
  { split; [now rewrite permute_rows_length|].
    now apply permute_rows_Forall. }
  do 2 eexists.
  split; [exact (real_log_ppx_aligned
                   (shapes_aligned (conj HB H3) (conj HB' H2)))|].
  split; [exact (real_log_ppx_aligned (shapes_aligned H3' H2'))|].
  split.
  - rewrite !concat_zip_with2. apply Permutation_map.
    apply positions_permute_rows; [congruence | exact HPp].
  - unfold non_pad. rewrite <- !concat_map. apply Permutation_map.
    apply Permutation_concat. now apply permute_rows_Permutation.
Qed.

End Reordering.

Lemma X21_witness :
  shape3 3 1 2 f32_swing /\ shape2 3 1 f32_row_targets /\
  exists r r',
    real_log_ppx f32_swing f32_row_targets = Ok r /\
    real_log_ppx (permute_rows [1; 2; 0]%nat f32_swing)
                 (permute_rows [1; 2; 0]%nat f32_row_targets) = Ok r' /\
    Permutation (concat r') (concat r) /\
    Permutation
      (concat (non_pad (T := Binary32.float32)
                 (permute_rows [1; 2; 0]%nat f32_row_targets)))
      (concat (non_pad (T := Binary32.float32) f32_row_targets)).
Proof.
  assert (H3 : shape3 3 1 2 f32_swing) by concrete.
  assert (H2 : shape2 3 1 f32_row_targets) by concrete.
  split; [exact H3|]. split; [exact H2|].
  apply (X21_reordering_permutes_the_summands H3 H2).
  simpl. apply Permutation_sym.
  apply (@perm_trans _ _ [1; 0; 2]%nat); [apply perm_swap|].
  apply perm_skip, perm_swap.
Defined.
